(** * NextEdge workspace: Gmail/HubSpot onboarding, inbox preview and message cache

    A shallow embedding of
    - [pages/Home.tsx] (the [Home] component: relative times, the search
      box, the inbox loader, the sync buttons and the automatic first sync),
    - [lib/hubspotCmsTest.ts] ([triggerCmsBlogPostTest]),
    - [infra/supabase/schema.sql] (the [gmail_connections] and
      [gmail_messages] tables with their constraints),
    together with a model of the server-side sync pipeline, which is not
    part of the sources at hand and is transcribed from the design document.

    Conventions.  A JavaScript string is a list of UTF-16 code units.
    Instants are integral milliseconds since the epoch ([Z]); [Date] time
    values are integers of magnitude at most 8.64e15, so every quotient
    computed here stays inside the range where double arithmetic is exact.
    React state is a record, an effect is a function from the rendered
    snapshot to queued state updates and emitted requests. *)

From Stdlib Require Import ZArith NArith Strings.String Strings.Ascii.
From Stdlib Require Import Numbers.DecimalString.
From stdpp Require Import base option list strings gmap sorting.

Open Scope Z_scope.

(* ===================================================================== *)
(** ** JavaScript values shared by the front-end model                    *)
(* ===================================================================== *)

Module JS.

(** UTF-16 code units. *)
Definition str : Type := list N.

(** An ASCII literal of the source text as a JavaScript string. *)
Definition lit (s : string) : str :=
  map N_of_ascii (list_ascii_of_string s).
Arguments lit : simpl never.

(** [T | null | undefined]: an optional property or a nullable value. *)
Inductive nullable (A : Type) : Type :=
| Undefined : nullable A
| Null : nullable A
| Val : A → nullable A.
Arguments Undefined {A}.
Arguments Null {A}.
Arguments Val {A} _.

(** Truthiness of a string: only the empty string is falsy. *)
Definition truthy_str (s : str) : bool :=
  match s with [] => false | _ :: _ => true end.

(** Truthiness of [string | null | undefined]. *)
Definition truthy (v : nullable str) : bool :=
  match v with
  | Val s => truthy_str s
  | Null | Undefined => false
  end.

(** [a ?? b]. *)
Definition nullish {A : Type} (v : nullable A) (d : A) : A :=
  match v with Val a => a | Null | Undefined => d end.

(** [a || b] on strings. *)
Definition or_str (a b : str) : str := if truthy_str a then a else b.

(** [String(n)] for an integral Number below 1e21: plain decimal. *)
Definition show_int (z : Z) : str :=
  lit (NilEmpty.string_of_int (Z.to_int z)).

(** The code points removed by [String.prototype.trim]: WhiteSpace and
    LineTerminator of ECMA-262. *)
Definition is_white_space (c : N) : bool :=
  ((9 <=? c) && (c <=? 13) || (c =? 32) || (c =? 160) || (c =? 5760)
   || (8192 <=? c) && (c <=? 8202) || (c =? 8232) || (c =? 8233)
   || (c =? 8239) || (c =? 8287) || (c =? 12288) || (c =? 65279))%N.

Fixpoint trim_start (s : str) : str :=
  match s with
  | [] => []
  | c :: s' => if is_white_space c then trim_start s' else s
  end.

Definition trim_end (s : str) : str := reverse (trim_start (reverse s)).

(** [s.trim()]. *)
Definition trim (s : str) : str := trim_end (trim_start s).

End JS.

Import JS.

(* ===================================================================== *)
(** ** [formatRelativeTime] (Home.tsx)                                    *)
(* ===================================================================== *)

Section RelativeTime.

(** [new Date(iso).getTime()]: the grammar accepted by the host's date
    parser is outside the sources; [None] stands for [NaN]. *)
Variable Date_parse : str → option Z.

(** [Date.now()]. *)
Variable Date_now : Z.

Definition formatRelativeTime (iso : nullable str) : str :=
  if negb (truthy iso) then lit "never"
  else
    match Date_parse (nullish iso []) with
    | None => lit "unknown"
    | Some time =>
        let diff := Date_now - time in
        let mins := diff / 60000 in
        if mins <? 1 then lit "just now"
        else if mins <? 60 then show_int mins ++ lit "m ago"
        else
          let hours := mins / 60 in
          if hours <? 24 then show_int hours ++ lit "h ago"
          else
            let days := hours / 24 in
            show_int days ++ lit "d ago"
    end.

(** What the component's callers can rely on, case by case.  [elapsed]
    is the number of milliseconds between the parsed instant and now. *)
Inductive relative_time : nullable str → str → Prop :=
| rt_undefined : relative_time Undefined (lit "never")
| rt_null : relative_time Null (lit "never")
| rt_empty : relative_time (Val []) (lit "never")
| rt_unknown s :
    s ≠ [] → Date_parse s = None →
    relative_time (Val s) (lit "unknown")
| rt_just_now s time :
    s ≠ [] → Date_parse s = Some time →
    Date_now - time < 60000 →
    relative_time (Val s) (lit "just now")
| rt_minutes s time :
    s ≠ [] → Date_parse s = Some time →
    60000 ≤ Date_now - time < 3600000 →
    relative_time (Val s)
      (show_int ((Date_now - time) / 60000) ++ lit "m ago")
| rt_hours s time :
    s ≠ [] → Date_parse s = Some time →
    3600000 ≤ Date_now - time < 86400000 →
    relative_time (Val s)
      (show_int ((Date_now - time) / 3600000) ++ lit "h ago")
| rt_days s time :
    s ≠ [] → Date_parse s = Some time →
    86400000 ≤ Date_now - time →
    relative_time (Val s)
      (show_int ((Date_now - time) / 86400000) ++ lit "d ago").

End RelativeTime.

(** A host whose date parser rejects its input. *)
Definition Date_parse_invalid (_ : str) : option Z := None.

(* ===================================================================== *)
(** ** [triggerCmsBlogPostTest] (lib/hubspotCmsTest.ts)                   *)
(* ===================================================================== *)

Module Fetch.

#[local] Unset Elimination Schemes.
Inductive Json : Type :=
| JNull : Json
| JBool : bool → Json
| JNum : Z → Json
| JStr : str → Json
| JArr : list Json → Json
| JObj : list (str * Json) → Json.
#[local] Set Elimination Schemes.

(** A thrown value: the constructor name and the [message]. *)
Record Error : Type := mkError { name : str; message : str }.

Definition new_Error (msg : str) : Error := mkError (lit "Error") msg.

(** What [response.json()] rejects with when the body is not JSON. *)
Definition SyntaxError : Error :=
  mkError (lit "SyntaxError") (lit "Unexpected token in JSON").

(** An HTTP response as the callers observe it: the [ok] flag, what
    [text()] resolves to, and what [json()] settles to ([None]: the body
    is not JSON and the promise rejects). *)
Record Response : Type := mkResponse {
  ok : bool;
  text : str;
  json : option Json
}.

Record Request : Type := mkRequest {
  url : str;
  method : str;
  headers : list (str * str);
  body : Json
}.

(** The promise returned by [fetch]: rejected (network failure, abort)
    or resolved with a response, whatever its status. *)
Inductive settled : Type :=
| Rejected : Error → settled
| Resolved : Response → settled.

(** The outcome of awaiting an async function. *)
Inductive completion (A : Type) : Type :=
| Return : A → completion A
| Throw : Error → completion A.
Arguments Return {A} _.
Arguments Throw {A} _.

End Fetch.

Import Fetch.

Section CmsTest.

(** The network, seen from the page. *)
Variable fetch : Request → settled.

Definition cmsTestRequest (userId : str) : Request :=
  {| url := lit "/api/hubspot/cms/test-blog-post";
     method := lit "POST";
     headers := [(lit "Content-Type", lit "application/json")];
     body := JObj [(lit "user_id", JStr userId)] |}.

Definition triggerCmsBlogPostTest (userId : str) : completion Json :=
  match fetch (cmsTestRequest userId) with
  | Rejected reason => Throw reason
  | Resolved response =>
      if negb (ok response) then
        let detail := text response in
        Throw (new_Error
                 (or_str detail (lit "Unable to trigger CMS blog post test.")))
      else
        match json response with
        | Some parsed => Return parsed
        | None => Throw SyntaxError
        end
  end.

End CmsTest.

(** A server that answers 200 with an HTML page. *)
Definition html_ok_response : Response :=
  {| ok := true; text := lit "<html></html>"; json := None |}.

(** A server that answers 500 with an empty body. *)
Definition empty_500_response : Response :=
  {| ok := false; text := []; json := None |}.

(* ===================================================================== *)
(** ** The inbox panel of [Home]: search box, query and selection         *)
(* ===================================================================== *)

Inductive InboxFilter : Type := New | Processed | Error.

(** The three literals of the union type. *)
Definition InboxFilter_text (f : InboxFilter) : string :=
  match f with
  | New => "new"
  | Processed => "processed"
  | Error => "error"
  end.

Definition InboxFilter_str (f : InboxFilter) : str := lit (InboxFilter_text f).

Record InboxMessage : Type := mkInboxMessage {
  id : str;
  subject : str;
  sender : nullable str;
  preview : str;
  snippet : nullable str;
  status : InboxFilter;
  has_attachments : bool;
  has_links : bool;
  has_images : bool;
  received_at : nullable str;
  created_at : nullable str;
  updated_at : nullable str;
  gmail_url : nullable str;
  crm_record_url : nullable str;
  error : nullable str
}.

Module URLSearchParams.

(** An ordered list of name/value pairs. *)
Definition t : Type := list (str * str).

(** [params.set(name, value)]: overwrite the first pair called [name]
    and drop the others, or append. *)
Fixpoint set (name value : str) (params : t) : t :=
  match params with
  | [] => [(name, value)]
  | (k, v) :: rest =>
      if decide (k = name)
      then (name, value) :: filter (λ kv, kv.1 ≠ name) rest
      else (k, v) :: set name value rest
  end.

(** [params.has(name)]. *)
Definition has (name : str) (params : t) : bool :=
  bool_decide (name ∈ params.*1).

End URLSearchParams.

(** The callback of the 400 ms timer armed on every change of
    [searchTerm]: the value handed to [setDebouncedSearch]. *)
Definition debounce (searchTerm : str) : str := trim searchTerm.

(** The query string built by the inbox effect. *)
Definition inboxParams (userId : str) (filter : InboxFilter)
    (debouncedSearch : str) : URLSearchParams.t :=
  let params :=
    [(lit "user_id", userId);
     (lit "status", InboxFilter_str filter);
     (lit "limit", lit "50")] in
  if truthy_str debouncedSearch
  then URLSearchParams.set (lit "query") debouncedSearch params
  else params.

(** The request issued by the inbox effect, if it issues one. *)
Definition inboxRequest (showInbox : bool) (userId : nullable str)
    (filter : InboxFilter) (debouncedSearch : str)
    : option URLSearchParams.t :=
  if negb showInbox || negb (truthy userId) then None
  else Some (inboxParams (nullish userId []) filter debouncedSearch).

(** The updater passed to [setSelectedMessage] once a page has loaded. *)
Definition selectAfterLoad (payload : list InboxMessage)
    (previous : option InboxMessage) : option InboxMessage :=
  match payload with
  | [] => None
  | first :: _ =>
      match previous with
      | Some prev =>
          match List.find (λ item, bool_decide (id item = id prev)) payload with
          | Some stillExists => Some stillExists
          | None => Some first
          end
      | None => Some first
      end
  end.

(** The part of the component state written by the inbox effect. *)
Record InboxView : Type := mkInboxView {
  messages : list InboxMessage;
  messagesError : option str;
  messagesLoading : bool;
  selectedMessage : option InboxMessage
}.

(** How the request of the inbox effect ends: a page of messages, or a
    failure (network error, status not ok, malformed body). *)
Inductive load_result : Type :=
| Loaded : list InboxMessage → load_result
| LoadFailed : load_result.

(** The effect body up to the request. *)
Definition startLoad (v : InboxView) : InboxView :=
  {| messages := messages v;
     messagesError := None;
     messagesLoading := true;
     selectedMessage := selectedMessage v |}.

(** The [then]/[catch]/[finally] chain; [active] is false once the effect
    has been cleaned up. *)
Definition completeLoad (active : bool) (r : load_result) (v : InboxView)
    : InboxView :=
  if negb active then v
  else
    match r with
    | Loaded payload =>
        {| messages := payload;
           messagesError := messagesError v;
           messagesLoading := false;
           selectedMessage := selectAfterLoad payload (selectedMessage v) |}
    | LoadFailed =>
        {| messages := [];
           messagesError := Some (lit "Unable to load inbox preview.");
           messagesLoading := false;
           selectedMessage := None |}
    end.

(** The selection a completed load must leave behind. *)
Inductive selection_after : load_result → option InboxMessage →
                            option InboxMessage → Prop :=
| sel_failed previous :
    selection_after LoadFailed previous None
| sel_empty previous :
    selection_after (Loaded []) previous None
| sel_kept payload prev kept :
    kept ∈ payload → id kept = id prev →
    selection_after (Loaded payload) (Some prev) (Some kept)
| sel_first_no_previous first rest :
    selection_after (Loaded (first :: rest)) None (Some first)
| sel_first_gone first rest prev :
    id prev ∉ id <$> (first :: rest) →
    selection_after (Loaded (first :: rest)) (Some prev) (Some first).

(* ===================================================================== *)
(** ** The connection and sync state of [Home]                            *)
(* ===================================================================== *)

Inductive ConnectionState : Type := Connecting | Disconnected | Connected.

#[global] Instance ConnectionState_eq_dec : EqDecision ConnectionState.
Proof. solve_decision. Defined.

#[global] Instance nullable_eq_dec {A : Type} `{EqDecision A} :
  EqDecision (nullable A).
Proof. solve_decision. Defined.

(** [Record<InboxFilter, number>]. *)
Record Counts : Type := mkCounts {
  count_new : Z;
  count_processed : Z;
  count_error : Z
}.

Record GmailStatus : Type := mkGmailStatus {
  connected : bool;
  email : nullable str;
  last_checked_at : nullable str;
  counts : nullable Counts;
  baseline_at : nullable str;
  baseline_ready : nullable bool
}.

Record HubSpotStatus : Type := mkHubSpotStatus {
  hubspot_connected : bool;
  hubspot_email : nullable str
}.

(** The status the component starts from and falls back to. *)
Definition gmailStatus_none : GmailStatus :=
  {| connected := false;
     email := Undefined;
     last_checked_at := Undefined;
     counts := Val (mkCounts 0 0 0);
     baseline_at := Undefined;
     baseline_ready := Val false |}.

Record HomeState : Type := mkHomeState {
  gmailStatus : GmailStatus;
  gmailState : ConnectionState;
  gmailDisconnecting : bool;
  hubspotState : ConnectionState;
  hubspotStatus : option HubSpotStatus;
  hubspotError : option str;
  showInsights : bool;
  isSyncing : bool;
  syncMessage : option str;
  autoSynced : bool
}.

(** The [useState] initialisers. *)
Definition initialState : HomeState :=
  {| gmailStatus := gmailStatus_none;
     gmailState := Connecting;
     gmailDisconnecting := false;
     hubspotState := Connecting;
     hubspotStatus := None;
     hubspotError := None;
     showInsights := false;
     isSyncing := false;
     syncMessage := None;
     autoSynced := false |}.

(** A call of one of the state setters. *)
Inductive setter : Type :=
| setGmailStatus : GmailStatus → setter
| setGmailState : ConnectionState → setter
| setGmailDisconnecting : bool → setter
| setHubspotState : ConnectionState → setter
| setHubspotStatus : HubSpotStatus → setter
| setHubspotError : option str → setter
| setShowInsights : bool → setter
| setIsSyncing : bool → setter
| setSyncMessage : option str → setter
| setAutoSynced : bool → setter.

Definition apply_setter (st : HomeState) (s : setter) : HomeState :=
  let '(mkHomeState gs g gd h hs he si sy sm au) := st in
  match s with
  | setGmailStatus x => mkHomeState x g gd h hs he si sy sm au
  | setGmailState x => mkHomeState gs x gd h hs he si sy sm au
  | setGmailDisconnecting x => mkHomeState gs g x h hs he si sy sm au
  | setHubspotState x => mkHomeState gs g gd x hs he si sy sm au
  | setHubspotStatus x => mkHomeState gs g gd h (Some x) he si sy sm au
  | setHubspotError x => mkHomeState gs g gd h hs x si sy sm au
  | setShowInsights x => mkHomeState gs g gd h hs he x sy sm au
  | setIsSyncing x => mkHomeState gs g gd h hs he si x sm au
  | setSyncMessage x => mkHomeState gs g gd h hs he si sy x au
  | setAutoSynced x => mkHomeState gs g gd h hs he si sy sm x
  end.

(** The queued setter calls are applied in call order at the next render. *)
Definition apply_setters (st : HomeState) (q : list setter) : HomeState :=
  foldl apply_setter st q.

(** The HTTP requests and navigations the component starts. *)
Inductive request : Type :=
| GetGmailStatus (user_id : str)
| GetHubSpotStatus (user_id : str)
| PostSyncStart (user_id : str) (max_messages : Z) (openInsights : bool)
| PostDisconnect (user_id : str)
| GoToGoogleConnect (user_id : str)
| GoToHubSpotConnect (user_id : str).

(** What one run of a callback or effect does: setter calls and requests. *)
Definition action : Type := list setter * list request.

Definition nothing : action := ([], []).

Definition and_then (a b : action) : action := (a.1 ++ b.1, a.2 ++ b.2).

(** Truthiness of [boolean | null | undefined]. *)
Definition truthy_flag (b : nullable bool) : bool := nullish b false.

Section Callbacks.

(** [user?.id] of the render the callbacks were created in. *)
Variable userId : nullable str.

(** The state of that render. *)
Variable st : HomeState.

Definition fetchGmailStatus : action :=
  if negb (truthy userId) then nothing
  else ([], [GetGmailStatus (nullish userId [])]).

Definition fetchHubSpotStatus : action :=
  if negb (truthy userId) then nothing
  else ([], [GetHubSpotStatus (nullish userId [])]).

(** [triggerSync] up to its first [await]. *)
Definition triggerSync (openInsights : bool) : action :=
  if negb (truthy userId) then nothing
  else
    ([setIsSyncing true;
      setSyncMessage
        (if negb (truthy_flag (baseline_ready (gmailStatus st)))
         then Some (lit "Preparing Gmail baseline...")
         else None)],
     [PostSyncStart (nullish userId []) 200 openInsights]).

Definition baselineReady : bool :=
  nullish (baseline_ready (gmailStatus st)) false.

Definition canProceed : bool :=
  bool_decide (gmailState st = Connected)
  && bool_decide (hubspotState st = Connected)
  && baselineReady.

(** The [disabled] attribute of the "Next" button. *)
Definition nextDisabled : bool := negb canProceed || isSyncing st.

(** The [disabled] attribute of the "Sync again" button. *)
Definition syncAgainDisabled : bool :=
  negb (connected (gmailStatus st)) || negb baselineReady || isSyncing st.

(** A click on a disabled button dispatches no handler. *)
Definition clickNext : action :=
  if nextDisabled then nothing else triggerSync true.

Definition clickSyncAgain : action :=
  if syncAgainDisabled then nothing else triggerSync false.

Definition handleConnectGmail : action :=
  if negb (truthy userId) then nothing
  else ([setGmailState Connecting], [GoToGoogleConnect (nullish userId [])]).

Definition handleConnectHubSpot : action :=
  if negb (truthy userId) then nothing
  else ([setHubspotState Connecting],
        [GoToHubSpotConnect (nullish userId [])]).

(** [handleDisconnectGmail] up to its first [await]. *)
Definition handleDisconnectGmail : action :=
  if negb (truthy userId) then nothing
  else ([setGmailDisconnecting true], [PostDisconnect (nullish userId [])]).

(** The "Connect" button of a card: rendered unless connected, disabled
    while connecting. *)
Definition clickConnect (state : ConnectionState) (onConnect : action)
    : action :=
  match state with
  | Disconnected => onConnect
  | Connecting | Connected => nothing
  end.

(** The "Disconnect" button of the Gmail card: rendered when the card is
    connected and [gmailStatus.connected], disabled while disconnecting. *)
Definition clickDisconnect : action :=
  if bool_decide (gmailState st = Connected)
     && connected (gmailStatus st)
     && negb (gmailDisconnecting st)
  then handleDisconnectGmail
  else nothing.

(** The three effects of lines 179-195, in declaration order. *)
Definition statusEffect : action :=
  if truthy userId then and_then fetchGmailStatus fetchHubSpotStatus
  else nothing.

Definition resetEffect : action := ([setAutoSynced false], []).

Definition autoSyncEffect : action :=
  if bool_decide (gmailState st = Connected)
     && bool_decide (hubspotState st = Connected)
     && truthy userId
     && negb (autoSynced st)
  then and_then ([setAutoSynced true], []) (triggerSync false)
  else nothing.

End Callbacks.

(** How [fetchGmailStatus] ends: [None] is the [catch] branch. *)
Definition gmailStatusSettled (r : option GmailStatus) : action :=
  match r with
  | Some payload =>
      ([setGmailStatus payload;
        setGmailState (if connected payload then Connected else Disconnected)],
       [])
  | None =>
      ([setGmailStatus gmailStatus_none; setGmailState Disconnected], [])
  end.

Definition hubspotStatusSettled (r : option HubSpotStatus) : action :=
  match r with
  | Some payload =>
      ([setHubspotStatus payload;
        setHubspotState
          (if hubspot_connected payload then Connected else Disconnected);
        setHubspotError None],
       [])
  | None =>
      ([setHubspotError (Some (lit "Unable to load HubSpot status."));
        setHubspotState Disconnected],
       [])
  end.

(** [triggerSync] after the sync request has settled; [processed] is
    [payload.processed], [None] the [catch] branch.  [userId] is the one the
    callback was created with. *)
Definition syncResponded (userId : nullable str) (openInsights : bool)
    (processed : option Z) : action :=
  match processed with
  | Some n =>
      and_then
        ([setSyncMessage
            (Some (lit "Captured " ++ show_int n ++ lit " messages"))]
         ++ (if openInsights then [setShowInsights true] else []),
         [])
        (fetchGmailStatus userId)
  | None =>
      ([setSyncMessage (Some (lit "Sync failed. Try again."));
        setIsSyncing false],
       [])
  end.

(** The [finally] block of [triggerSync] on the success path. *)
Definition syncFinished : action := ([setIsSyncing false], []).

(** [handleDisconnectGmail] after the request has settled. *)
Definition disconnectResponded (userId : nullable str) (ok : bool) : action :=
  if ok then fetchGmailStatus userId else ([setGmailDisconnecting false], []).

Definition disconnectFinished : action :=
  ([setGmailState Disconnected; setGmailDisconnecting false], []).

(** Everything that can happen to a mounted [Home] between two renders. *)
Inductive event : Type :=
| UserIs (userId : nullable str)
| GmailStatusSettled (r : option GmailStatus)
| HubSpotStatusSettled (r : option HubSpotStatus)
| SyncResponded (userId : nullable str) (openInsights : bool)
    (processed : option Z)
| SyncFinished
| DisconnectResponded (userId : nullable str) (ok : bool)
| DisconnectFinished
| ClickNext
| ClickSyncAgain
| ClickConnectGmail
| ClickConnectHubSpot
| ClickDisconnectGmail
| CloseInsights.

Definition handle (userId : nullable str) (st : HomeState) (e : event)
    : action :=
  match e with
  | UserIs _ => nothing
  | GmailStatusSettled r => gmailStatusSettled r
  | HubSpotStatusSettled r => hubspotStatusSettled r
  | SyncResponded u openInsights processed =>
      syncResponded u openInsights processed
  | SyncFinished => syncFinished
  | DisconnectResponded u ok => disconnectResponded u ok
  | DisconnectFinished => disconnectFinished
  | ClickNext => clickNext userId st
  | ClickSyncAgain => clickSyncAgain userId st
  | ClickConnectGmail =>
      clickConnect (gmailState st) (handleConnectGmail userId)
  | ClickConnectHubSpot =>
      clickConnect (hubspotState st) (handleConnectHubSpot userId)
  | ClickDisconnectGmail => clickDisconnect userId st
  | CloseInsights => ([setShowInsights false], [])
  end.

(** The values the dependency arrays of the three effects are compared
    on.  [fetchGmailStatus] and [fetchHubSpotStatus] are memoised on
    [userId], [triggerSync] on [userId] and [gmailStatus.baseline_ready]. *)
Record deps : Type := mkDeps {
  dep_userId : nullable str;
  dep_autoSynced : bool;
  dep_gmailState : ConnectionState;
  dep_hubspotState : ConnectionState;
  dep_baseline_ready : nullable bool
}.

#[global] Instance deps_eq_dec : EqDecision deps.
Proof. solve_decision. Defined.

Definition deps_of (userId : nullable str) (st : HomeState) : deps :=
  {| dep_userId := userId;
     dep_autoSynced := autoSynced st;
     dep_gmailState := gmailState st;
     dep_hubspotState := hubspotState st;
     dep_baseline_ready := baseline_ready (gmailStatus st) |}.

(** One commit: the effects whose dependencies differ from those of the
    previous commit ([None] on mount) run in order, all on the state of the
    render being committed. *)
Definition commit (prev : option deps) (userId : nullable str)
    (st : HomeState) : action :=
  let user_changed :=
    match prev with
    | None => true
    | Some d => bool_decide (dep_userId d ≠ userId)
    end in
  let auto_changed :=
    match prev with
    | None => true
    | Some d => bool_decide (d ≠ deps_of userId st)
    end in
  and_then (if user_changed then statusEffect userId else nothing)
    (and_then (if user_changed then resetEffect else nothing)
       (if auto_changed then autoSyncEffect userId st else nothing)).

(** Render and commit [n + 1] times, each render on the state left by the
    setters of the previous commit.  Returns the state, the dependencies of
    the last commit, and the requests started by effects. *)
Fixpoint rerender (n : nat) (prev : option deps) (userId : nullable str)
    (st : HomeState) : HomeState * deps * list request :=
  let fx := commit prev userId st in
  let st' := apply_setters st fx.1 in
  match n with
  | O => (st', deps_of userId st, fx.2)
  | S n' =>
      let '(st'', d, out) := rerender n' (Some (deps_of userId st)) userId st' in
      (st'', d, fx.2 ++ out)
  end.

(** A mounted component between two events. *)
Record config : Type := mkConfig {
  user : nullable str;
  state : HomeState;
  committed : deps
}.

(** Where a request was started from. *)
Inductive origin : Type := ByHandler | ByEffect.

(** Three commits bring the component to rest (see [settle_quiescent]). *)
Definition settle (prev : option deps) (userId : nullable str)
    (st : HomeState) : config * list (origin * request) :=
  let '(st', d, out) := rerender 2 prev userId st in
  (mkConfig userId st' d, (λ r, (ByEffect, r)) <$> out).

Definition mount (userId : nullable str) : config * list (origin * request) :=
  settle None userId initialState.

Definition step (c : config) (e : event) : config * list (origin * request) :=
  let userId := match e with UserIs u => u | _ => user c end in
  let a := handle (user c) (state c) e in
  let '(c', out) := settle (Some (committed c)) userId
                      (apply_setters (state c) a.1) in
  (c', ((λ r, (ByHandler, r)) <$> a.2) ++ out).

Fixpoint run (c : config) (trace : list event)
    : config * list (origin * request) :=
  match trace with
  | [] => (c, [])
  | e :: trace' =>
      let '(c', out) := step c e in
      let '(c'', out') := run c' trace' in
      (c'', out ++ out')
  end.

Definition is_auto_sync (x : origin * request) : bool :=
  match x with
  | (ByEffect, PostSyncStart _ _ _) => true
  | _ => false
  end.

(** The number of sync passes started by the automatic trigger. *)
Definition auto_syncs (out : list (origin * request)) : nat :=
  length (filter (λ x, is_auto_sync x = true) out).

(** Both integrations shown as connected to a signed-in user. *)
Definition ready (userId : nullable str) (st : HomeState) : bool :=
  bool_decide (gmailState st = Connected)
  && bool_decide (hubspotState st = Connected)
  && truthy userId.

Definition both_connected (c : config) : bool := ready (user c) (state c).

(** Whether some step of the trace ends with both integrations connected. *)
Fixpoint ever_connected (c : config) (trace : list event) : bool :=
  match trace with
  | [] => false
  | e :: trace' =>
      let c' := (step c e).1 in
      both_connected c' || ever_connected c' trace'
  end.

Definition is_sync_start (r : request) : bool :=
  match r with PostSyncStart _ _ _ => true | _ => false end.

Definition sync_starts (out : list request) : nat :=
  length (filter (λ r, is_sync_start r = true) out).

Definition sets_autoSynced (s : setter) : bool :=
  match s with setAutoSynced _ => true | _ => false end.

(** A configuration at rest: the last commit rendered the current state,
    and the automatic sync has fired if both integrations are connected. *)
Definition at_rest (c : config) : Prop :=
  committed c = deps_of (user c) (state c)
  ∧ (both_connected c = true → autoSynced (state c) = true).

(** The event leaves the user identity alone. *)
Definition keeps_user (u : nullable str) (e : event) : Prop :=
  match e with UserIs u' => u' = u | _ => True end.

(** Configurations a mounted component can be in. *)
Inductive reachable : config → Prop :=
| reachable_mount u : reachable (mount u).1
| reachable_step c e : reachable c → reachable (step c e).1.

(** Sample payloads. *)
Definition gmail_connected_status : GmailStatus :=
  {| connected := true;
     email := Val (lit "a@example.com");
     last_checked_at := Null;
     counts := Val (mkCounts 0 0 0);
     baseline_at := Val (lit "2025-01-01T00:00:00Z");
     baseline_ready := Val false |}.

Definition hubspot_connected_status : HubSpotStatus :=
  {| hubspot_connected := true; hubspot_email := Undefined |}.

(* ===================================================================== *)
(** ** The tables of [schema.sql]                                         *)
(* ===================================================================== *)

(** A row of [gmail_connections] without its primary key [user_id], which
    indexes the table. *)
Module Connection.
Record t : Type := mk {
  gmail_user : string;
  email : option string;
  baseline_at : Z;
  baseline_ready : bool;
  last_poll_at : option Z;
  created_at : Z;
  updated_at : Z
}.
End Connection.

(** A row of [gmail_messages]. *)
Module Message.
Record t : Type := mk {
  id : N;
  user_id : string;
  message_id : string;
  thread_id : option string;
  subject : option string;
  sender : option string;
  snippet : option string;
  preview : option string;
  status : string;
  has_attachments : bool;
  has_images : bool;
  has_links : bool;
  gmail_url : option string;
  crm_record_url : option string;
  error : option string;
  received_at : option Z;
  created_at : Z;
  updated_at : Z
}.

(** The columns of [unique (user_id, message_id)]. *)
Definition key (m : t) : string * string := (user_id m, message_id m).
End Message.

(** The database: [gmail_connections] by primary key, the rows of
    [gmail_messages], and the next value of [gen_random_uuid()]. *)
Record db : Type := mkDb {
  gmail_connections : gmap string Connection.t;
  gmail_messages : list Message.t;
  next_id : N
}.

Definition empty_db : db :=
  {| gmail_connections := ∅; gmail_messages := []; next_id := 0%N |}.


(** [insert into gmail_messages]: the row gets a fresh [id]; the statement
    fails ([None]) on a foreign-key or uniqueness violation. *)
Definition insert_message (m : Message.t) (d : db) : option db :=
  if bool_decide (is_Some (gmail_connections d !! Message.user_id m))
     && bool_decide (Message.key m ∉ Message.key <$> gmail_messages d)
  then
    let row :=
      Message.mk (next_id d) (Message.user_id m) (Message.message_id m)
        (Message.thread_id m) (Message.subject m) (Message.sender m)
        (Message.snippet m) (Message.preview m) (Message.status m)
        (Message.has_attachments m) (Message.has_images m)
        (Message.has_links m) (Message.gmail_url m)
        (Message.crm_record_url m) (Message.error m)
        (Message.received_at m) (Message.created_at m)
        (Message.updated_at m) in
    Some {| gmail_connections := gmail_connections d;
            gmail_messages := gmail_messages d ++ [row];
            next_id := N.succ (next_id d) |}
  else None.

(** [delete from gmail_connections where user_id = u], with
    [on delete cascade] on [gmail_messages.user_id]. *)
Definition delete_connection (u : string) (d : db) : db :=
  {| gmail_connections := delete u (gmail_connections d);
     gmail_messages := filter (λ m, Message.user_id m ≠ u) (gmail_messages d);
     next_id := next_id d |}.

(* ===================================================================== *)
(** ** The server-side pipeline                                           *)
(* ===================================================================== *)

(** A message as the mailbox API returns it. *)
Record raw_message : Type := mkRaw {
  raw_id : string;
  raw_thread_id : string;
  raw_subject : string;
  raw_sender : string;
  raw_snippet : string;
  raw_body : string;
  raw_received_at : Z;
  raw_attachment_parts : nat;
  raw_inline_image_parts : nat
}.

(** What the enrichment step has reported for a message, if anything. *)
Inductive enrichment : Type :=
| NotEnriched : enrichment
| Enriched (crm_record_url : string) : enrichment
| EnrichmentFailed (detail : string) : enrichment.

Fixpoint contains (needle hay : string) : bool :=
  String.prefix needle hay
  || match hay with
     | EmptyString => false
     | String _ hay' => contains needle hay'
     end.

Record classification : Type := mkClassification {
  cl_status : InboxFilter;
  cl_has_attachments : bool;
  cl_has_images : bool;
  cl_has_links : bool
}.

(** Modelled from the spec: the Status Classifier, the pure function
    [classify(rawMessage, enrichmentOutcome)] of section 4.4, which is not
    among the sources.  Initial ingestion yields [new], a reported success
    [processed], a reported failure [error]; the flags are the presence of
    attachment parts, of an [http(s)://] pattern in the body, and of inline
    image parts. *)
Definition classify (raw : raw_message) (outcome : enrichment)
    : classification :=
  {| cl_status :=
       match outcome with
       | NotEnriched => New
       | Enriched _ => Processed
       | EnrichmentFailed _ => Error
       end;
     cl_has_attachments := bool_decide (0 < raw_attachment_parts raw)%nat;
     cl_has_images := bool_decide (0 < raw_inline_image_parts raw)%nat;
     cl_has_links :=
       contains "http://" (raw_body raw) || contains "https://" (raw_body raw)
  |}.

(** Modelled from the spec: the row the pipeline writes for a message of
    user [u] at instant [now] (the Message of section 3 filled from the raw
    message and its classification); the code that builds it is not among
    the sources.  Its [id] is assigned on insertion. *)
Definition row_of (u : string) (now : Z) (raw : raw_message)
    (outcome : enrichment) : Message.t :=
  let c := classify raw outcome in
  {| Message.id := 0%N;
     Message.user_id := u;
     Message.message_id := raw_id raw;
     Message.thread_id := Some (raw_thread_id raw);
     Message.subject := Some (raw_subject raw);
     Message.sender := Some (raw_sender raw);
     Message.snippet := Some (raw_snippet raw);
     Message.preview := Some (raw_body raw);
     Message.status := InboxFilter_text (cl_status c);
     Message.has_attachments := cl_has_attachments c;
     Message.has_images := cl_has_images c;
     Message.has_links := cl_has_links c;
     Message.gmail_url :=
       Some ("https://mail.google.com/mail/u/0/#inbox/" +:+ raw_id raw);
     Message.crm_record_url :=
       match outcome with Enriched url => Some url | _ => None end;
     Message.error :=
       match outcome with EnrichmentFailed detail => Some detail | _ => None end;
     Message.received_at := Some (raw_received_at raw);
     Message.created_at := now;
     Message.updated_at := now |}.

(** Modelled from the spec: the update half of the upsert (section 4.3,
    step 3), whose statement is not among the sources: subject, sender and
    snippet are refreshed unconditionally; status, crm_record_url, error
    and updated_at only if the new data is not older than the stored row. *)
Definition merge_row (old new : Message.t) : Message.t :=
  let fresh := bool_decide (Message.updated_at old ≤ Message.updated_at new) in
  {| Message.id := Message.id old;
     Message.user_id := Message.user_id old;
     Message.message_id := Message.message_id old;
     Message.thread_id := Message.thread_id old;
     Message.subject := Message.subject new;
     Message.sender := Message.sender new;
     Message.snippet := Message.snippet new;
     Message.preview := Message.preview old;
     Message.status :=
       if fresh then Message.status new else Message.status old;
     Message.has_attachments := Message.has_attachments old;
     Message.has_images := Message.has_images old;
     Message.has_links := Message.has_links old;
     Message.gmail_url := Message.gmail_url old;
     Message.crm_record_url :=
       if fresh then Message.crm_record_url new
       else Message.crm_record_url old;
     Message.error :=
       if fresh then Message.error new else Message.error old;
     Message.received_at := Message.received_at old;
     Message.created_at := Message.created_at old;
     Message.updated_at :=
       if fresh then Message.updated_at new else Message.updated_at old |}.

(** Modelled from the spec: the upsert of the Message Store (sections 3
    and 4.3, step 3), issued by a backend that is not among the sources:
    insert, or update the row with the same [(user_id, message_id)].  A row
    that can be neither inserted nor matched (no such connection) is
    dropped with the failed statement. *)
Definition upsert_message (new : Message.t) (d : db) : db :=
  if bool_decide (Message.key new ∈ Message.key <$> gmail_messages d)
  then
    {| gmail_connections := gmail_connections d;
       gmail_messages :=
         (λ old, if decide (Message.key old = Message.key new)
                 then merge_row old new else old) <$> gmail_messages d;
       next_id := next_id d |}
  else default d (insert_message new d).

(** Modelled from the spec: step 1 of the Sync Worker (section 4.3), the
    fetch floor [max(baseline_at, last_poll_at)], or [baseline_at] when
    nothing has been polled yet. *)
Definition fetch_floor (c : Connection.t) : Z :=
  match Connection.last_poll_at c with
  | Some polled => Z.max (Connection.baseline_at c) polled
  | None => Connection.baseline_at c
  end.

Definition received_le (a b : raw_message) : Prop :=
  raw_received_at a ≤ raw_received_at b.

#[global] Instance received_le_dec : RelDecision received_le.
Proof. intros a b. unfold received_le. apply _. Defined.

(** Modelled from the spec: step 2 of the Sync Worker, the request to the
    external mailbox: at most [max_messages] gmail_messages received strictly
    after the floor, oldest first. *)
Definition fetch_batch (mailbox : list raw_message) (floor : Z)
    (max_messages : nat) : list raw_message :=
  take max_messages
    (merge_sort received_le
       (filter (λ raw, floor < raw_received_at raw) mailbox)).

(** Modelled from the spec: step 3 of the Sync Worker: classify each
    fetched message and upsert it, in order. *)
Definition ingest (u : string) (now : Z) (batch : list raw_message) (d : db)
    : db :=
  foldl (λ d raw, upsert_message (row_of u now raw NotEnriched) d) d batch.

(** Modelled from the spec: step 4 of the Sync Worker: the high-water mark
    becomes the [received_at] of the last message processed, and stays when
    the batch is empty.  [ready] is the value [baseline_ready] takes. *)
Definition advance_mark (now : Z) (batch : list raw_message) (ready : bool)
    (c : Connection.t) : Connection.t :=
  {| Connection.gmail_user := Connection.gmail_user c;
     Connection.email := Connection.email c;
     Connection.baseline_at := Connection.baseline_at c;
     Connection.baseline_ready := ready;
     Connection.last_poll_at :=
       match last batch with
       | Some raw => Some (raw_received_at raw)
       | None => Connection.last_poll_at c
       end;
     Connection.created_at := Connection.created_at c;
     Connection.updated_at := now |}.

(** [a] was received after [b]; ties are broken by insertion order. *)
Definition newer (a b : Message.t) : bool :=
  match Message.received_at a, Message.received_at b with
  | Some ta, Some tb =>
      (tb <? ta) || (tb =? ta) && (Message.id b <? Message.id a)%N
  | Some _, None => true
  | None, Some _ => false
  | None, None => (Message.id b <? Message.id a)%N
  end.

(** Modelled from the spec: step 5 of the Sync Worker: of the rows of user
    [u], only the [cap] most recently received stay. *)
Definition evict (cap : nat) (u : string) (d : db) : db :=
  let mine := filter (λ m, Message.user_id m = u) (gmail_messages d) in
  {| gmail_connections := gmail_connections d;
     gmail_messages :=
       filter
         (λ m, Message.user_id m ≠ u
               ∨ (length (filter (λ m', newer m' m = true) mine) < cap)%nat)
         (gmail_messages d);
     next_id := next_id d |}.

Section Pipeline.

(** The retention cap of the message cache. *)
Variable cap : nat.

(** Modelled from the spec: one pass of the Sync Worker (section 4.3) for
    a connection [c] of user [u]; [mailbox] is what the external mailbox
    holds. *)
Definition sync_pass (u : string) (c : Connection.t) (now : Z)
    (mailbox : list raw_message) (max_messages : nat) (d : db) : db * nat :=
  let batch := fetch_batch mailbox (fetch_floor c) max_messages in
  let d1 := ingest u now batch d in
  let d2 :=
    {| gmail_connections := <[u := advance_mark now batch true c]> (gmail_connections d1);
       gmail_messages := gmail_messages d1;
       next_id := next_id d1 |} in
  (evict cap u d2, length batch).

(** Modelled from the spec: [POST /sync/start], that is [runSync(userId,
    maxMessages)] of section 4.3 together with the Baseline Establisher of
    section 4.2: without a connection nothing runs; the first pass runs
    against the recorded baseline and only its completion sets
    [baseline_ready]; later passes are steady-state syncs.  [mailbox] is
    [None] when the external mailbox cannot be reached: the pass aborts and
    nothing changes. *)
Definition runSync (u : string) (now : Z)
    (mailbox : option (list raw_message)) (max_messages : nat) (d : db)
    : option (db * nat) :=
  match gmail_connections d !! u, mailbox with
  | Some c, Some available => Some (sync_pass u c now available max_messages d)
  | _, _ => None
  end.

(** Modelled from the spec: [upsertConnection] followed by [setBaseline]
    (section 4.1), run when the Gmail authorization succeeds: a new
    connection records [now] as its baseline, not yet ready; an existing
    one keeps its baseline. *)
Definition connect (u gmail_user : string) (email : option string) (now : Z)
    (d : db) : db :=
  let c :=
    match gmail_connections d !! u with
    | Some old =>
        {| Connection.gmail_user := gmail_user;
           Connection.email := email;
           Connection.baseline_at := Connection.baseline_at old;
           Connection.baseline_ready := Connection.baseline_ready old;
           Connection.last_poll_at := Connection.last_poll_at old;
           Connection.created_at := Connection.created_at old;
           Connection.updated_at := now |}
    | None =>
        {| Connection.gmail_user := gmail_user;
           Connection.email := email;
           Connection.baseline_at := now;
           Connection.baseline_ready := false;
           Connection.last_poll_at := None;
           Connection.created_at := now;
           Connection.updated_at := now |}
    end in
  {| gmail_connections := <[u := c]> (gmail_connections d);
     gmail_messages := gmail_messages d;
     next_id := next_id d |}.

(** Modelled from the spec: [disconnect(userId, provider)] for Gmail
    (section 4.1), the handler behind [POST /api/google/disconnect]: it
    deletes the connection row; the cascade is the schema's. *)
Definition disconnect (u : string) (d : db) : db := delete_connection u d.

(** Modelled from the spec: the enrichment step reporting back through the
    Status Classifier (sections 3 and 4.4): a message still [new] becomes
    [processed] with its CRM link, or [error] with the failure detail. *)
Definition report_enrichment (u : string) (now : Z) (raw : raw_message)
    (outcome : enrichment) (d : db) : db :=
  let new := row_of u now raw outcome in
  {| gmail_connections := gmail_connections d;
     gmail_messages :=
       (λ old, if bool_decide (Message.key old = Message.key new)
                  && bool_decide (Message.status old = InboxFilter_text New)
               then merge_row old new else old) <$> gmail_messages d;
     next_id := next_id d |}.

(** Modelled from the spec: the operations of the server (section 6):
    connect, sync/start, the enrichment report and disconnect. *)
Inductive op : Type :=
| OpConnect (u gmail_user : string) (email : option string) (now : Z)
| OpSyncStart (u : string) (now : Z) (mailbox : option (list raw_message))
    (max_messages : nat)
| OpEnrichment (u : string) (now : Z) (raw : raw_message)
    (outcome : enrichment)
| OpDisconnect (u : string).

Definition exec (d : db) (o : op) : db :=
  match o with
  | OpConnect u gmail_user email now => connect u gmail_user email now d
  | OpSyncStart u now mailbox max_messages =>
      match runSync u now mailbox max_messages d with
      | Some (d', _) => d'
      | None => d
      end
  | OpEnrichment u now raw outcome => report_enrichment u now raw outcome d
  | OpDisconnect u => disconnect u d
  end.

(** The database after a history of operations on an empty one. *)
Definition after (history : list op) : db := foldl exec empty_db history.

End Pipeline.

(** The invariants of the store. *)
Definition has_owner (d : db) (m : Message.t) : Prop :=
  is_Some (gmail_connections d !! Message.user_id m).

Definition after_baseline (d : db) (m : Message.t) : Prop :=
  ∃ c t, gmail_connections d !! Message.user_id m = Some c
         ∧ Message.received_at m = Some t
         ∧ Connection.baseline_at c ≤ t.

Definition status_in_enum (m : Message.t) : Prop :=
  ∃ f, Message.status m = InboxFilter_text f.

Definition keys (d : db) : list (string * string) :=
  Message.key <$> gmail_messages d.

Definition store_ok (d : db) : Prop :=
  NoDup (keys d)
  ∧ Forall (after_baseline d) (gmail_messages d)
  ∧ Forall status_in_enum (gmail_messages d).

(** Sample mailbox contents around a baseline at instant 1000. *)
Definition raw_sample (mid : string) (received : Z) : raw_message :=
  {| raw_id := mid;
     raw_thread_id := "t";
     raw_subject := "subject";
     raw_sender := "sender@example.com";
     raw_snippet := "snippet";
     raw_body := "see https://example.com";
     raw_received_at := received;
     raw_attachment_parts := 0;
     raw_inline_image_parts := 0 |}.

(* ===================================================================== *)
(** ** Further parts of [Home]: labels, CMS test, empty state             *)
(* ===================================================================== *)

Section Labels.

Variable Date_parse : str → option Z.
Variable Date_now : Z.

(** The [detail] prop handed to the Gmail card (lines 377-383); [None] is
    [undefined], for which the card renders no detail line. *)
Definition gmailDetail (gs : GmailStatus) : option str :=
  if truthy (baseline_at gs) then
    Some (lit "Watching new mail since "
          ++ formatRelativeTime Date_parse Date_now (baseline_at gs))
  else if truthy (last_checked_at gs) then
    Some (lit "Last sync "
          ++ formatRelativeTime Date_parse Date_now (last_checked_at gs))
  else None.

End Labels.

(** The text of the empty list (lines 518-520), when it is rendered. *)
Definition emptyStateText (v : InboxView) : option str :=
  if negb (messagesLoading v) && bool_decide (messages v = []) then
    Some (match messagesError v with
          | Some e => or_str e (lit "Nothing to show just yet.")
          | None => lit "Nothing to show just yet."
          end)
  else None.

(** The argument of a call of [toast]; [toast_variant] is [None] when the
    property is left out. *)
Record Toast : Type := mkToast {
  toast_title : str;
  toast_description : str;
  toast_variant : option str
}.

(** The value of an expression: [None] is [undefined]. *)
Definition value : Type := option Json.

(** The own property [key] of a parsed JSON object, the last binding
    winning; for the two names read below no prototype supplies one. *)
Fixpoint own_property (key : str) (fields : list (str * Json)) : value :=
  match fields with
  | [] => None
  | (k, v) :: rest =>
      match own_property key rest with
      | Some later => Some later
      | None => if decide (k = key) then Some v else None
      end
  end.

(** [v.key]: a TypeError on null, [undefined] on what has no such property. *)
Definition get_property (v : Json) (key : str) : option value :=
  match v with
  | JNull => None
  | JObj fields => Some (own_property key fields)
  | JBool _ | JNum _ | JStr _ | JArr _ => Some None
  end.

(** [v?.key] for a value [v] that may be undefined or null. *)
Definition optional_property (v : value) (key : str) : value :=
  match v with
  | None | Some JNull => None
  | Some o => default None (get_property o key)
  end.

Definition truthy_value (v : value) : bool :=
  match v with
  | None | Some JNull => false
  | Some (JBool b) => b
  | Some (JNum z) => negb (z =? 0)
  | Some (JStr s) => truthy_str s
  | Some (JArr _) | Some (JObj _) => true
  end.

(** [String(v)] on parsed JSON; [JNum] holds an integral Number below
    1e21.  An array is joined with commas, null elements giving the empty
    string. *)
Fixpoint String_json (v : Json) : str :=
  match v with
  | JNull => lit "null"
  | JBool b => lit (if b then "true" else "false")
  | JNum z => show_int z
  | JStr s => s
  | JArr elements =>
      (fix join (l : list Json) : str :=
         match l with
         | [] => []
         | e :: rest =>
             match e with JNull => [] | _ => String_json e end
             ++ match rest with [] => [] | _ :: _ => lit "," ++ join rest end
         end) elements
  | JObj _ => lit "[object Object]"
  end.

Definition String_value (v : value) : str :=
  match v with None => lit "undefined" | Some j => String_json j end.

Section CmsTestHandler.

Variable fetch : Request → settled.

(** The message of the TypeError thrown on reading a property of null;
    its wording is the engine's. *)
Variable TypeError_message : str.

(** The toast of the [try] block of [handleCmsTest]; reading
    [result.hubspot_response] throws when [result] is null. *)
Definition cmsSuccessToast (result : Json) : completion Toast :=
  match get_property result (lit "hubspot_response") with
  | None => Throw (mkError (lit "TypeError") TypeError_message)
  | Some hubspot_response =>
      let id := optional_property hubspot_response (lit "id") in
      Return
        {| toast_title := lit "CMS sample payload sent";
           toast_description :=
             if truthy_value id
             then lit "HubSpot created blog post " ++ String_value id ++ lit "."
             else lit "HubSpot accepted the sample payload.";
           toast_variant := None |}
  end.

(** The toast of the [catch] block; every value thrown here is an
    [Error], so the description is its message. *)
Definition cmsFailureToast (e : Fetch.Error) : Toast :=
  {| toast_title := lit "CMS test failed";
     toast_description := message e;
     toast_variant := Some (lit "destructive") |}.

(** What one call of [handleCmsTest] does: the requests it sends, the
    toasts it shows, and [cmsTestRunning] while it waits and once it is
    done. *)
Record cms_run : Type := mkCmsRun {
  cms_requests : list Request;
  cms_toasts : list Toast;
  cms_running_meanwhile : bool;
  cms_running_after : bool
}.

Definition handleCmsTest (userId : nullable str) (cmsTestRunning : bool)
    : cms_run :=
  if negb (truthy userId) || cmsTestRunning then
    {| cms_requests := [];
       cms_toasts := [];
       cms_running_meanwhile := cmsTestRunning;
       cms_running_after := cmsTestRunning |}
  else
    let shown :=
      match triggerCmsBlogPostTest fetch (nullish userId []) with
      | Return result =>
          match cmsSuccessToast result with
          | Return t => t
          | Throw e => cmsFailureToast e
          end
      | Throw e => cmsFailureToast e
      end in
    {| cms_requests := [cmsTestRequest (nullish userId [])];
       cms_toasts := [shown];
       cms_running_meanwhile := true;
       cms_running_after := false |}.

(** A click on "Test CMS POST", disabled while a test runs or HubSpot is
    not connected. *)
Definition clickCmsTest (userId : nullable str) (hubspot : ConnectionState)
    (cmsTestRunning : bool) : cms_run :=
  if cmsTestRunning || negb (bool_decide (hubspot = Connected)) then
    {| cms_requests := [];
       cms_toasts := [];
       cms_running_meanwhile := cmsTestRunning;
       cms_running_after := cmsTestRunning |}
  else handleCmsTest userId cmsTestRunning.

End CmsTestHandler.

(** A server that answers 502 with a reason. *)
Definition bad_gateway_response : Response :=
  {| ok := false; text := lit "upstream unavailable"; json := None |}.

(** The [user_id] a request is made for. *)
Definition request_user (r : request) : str :=
  match r with
  | GetGmailStatus u | GetHubSpotStatus u | PostSyncStart u _ _
  | PostDisconnect u | GoToGoogleConnect u | GoToHubSpotConnect u => u
  end.

(** A request names a user, and a sync asks for 200 messages. *)
Definition request_ok (r : request) : Prop :=
  request_user r ≠ []
  ∧ match r with PostSyncStart _ n _ => n = 200 | _ => True end.

(** The connection badges agree with the statuses they were set from. *)
Definition badges_ok (st : HomeState) : Prop :=
  (gmailState st = Connected → connected (gmailStatus st) = true)
  ∧ (hubspotState st = Connected →
     hubspotError st = None
     ∧ ∃ payload, hubspotStatus st = Some payload
                  ∧ hubspot_connected payload = true).

(** The setters the three effects call. *)
Definition effect_setter (s : setter) : bool :=
  match s with
  | setAutoSynced _ | setIsSyncing true | setSyncMessage _ => true
  | _ => false
  end.

(** The fields of the state that only handlers write. *)
Definition same_but_sync (st st' : HomeState) : Prop :=
  gmailStatus st' = gmailStatus st
  ∧ gmailState st' = gmailState st
  ∧ gmailDisconnecting st' = gmailDisconnecting st
  ∧ hubspotState st' = hubspotState st
  ∧ hubspotStatus st' = hubspotStatus st
  ∧ hubspotError st' = hubspotError st
  ∧ showInsights st' = showInsights st
  ∧ (isSyncing st = true → isSyncing st' = true).

Definition is_status_request (r : request) : bool :=
  match r with
  | GetGmailStatus _ | GetHubSpotStatus _ => true
  | _ => false
  end.

Definition is_effect_status (x : origin * request) : bool :=
  match x with
  | (ByEffect, r) => is_status_request r
  | (ByHandler, _) => false
  end.

(** The status requests among the requests started by effects. *)
Definition effect_status_requests (out : list (origin * request))
    : list request :=
  snd <$> filter (λ x, is_effect_status x = true) out.

(** The events that end a sync: its failure, or the end of the status
    refresh that follows its success. *)
Definition ends_sync (e : event) : bool :=
  match e with
  | SyncFinished | SyncResponded _ _ None => true
  | _ => false
  end.


(* ===================================================================== *)
(** ** Statements on the tables of [schema.sql]                           *)
(* ===================================================================== *)

(** [insert into gmail_connections]: fails on a taken primary key. *)
Definition insert_connection (u : string) (c : Connection.t) (d : db)
    : option db :=
  match gmail_connections d !! u with
  | Some _ => None
  | None =>
      Some {| gmail_connections := <[u := c]> (gmail_connections d);
              gmail_messages := gmail_messages d;
              next_id := next_id d |}
  end.

Inductive statement : Type :=
| InsertConnection (u : string) (c : Connection.t)
| InsertMessage (m : Message.t)
| DeleteConnection (u : string).

(** A statement that fails leaves the tables as they were. *)
Definition run_statement (d : db) (s : statement) : db :=
  match s with
  | InsertConnection u c => default d (insert_connection u c d)
  | InsertMessage m => default d (insert_message m d)
  | DeleteConnection u => delete_connection u d
  end.

Definition run_statements (script : list statement) : db :=
  foldl run_statement empty_db script.

(** Referential integrity and the two uniqueness constraints. *)
Definition schema_ok (d : db) : Prop :=
  NoDup (keys d)
  ∧ NoDup (Message.id <$> gmail_messages d)
  ∧ Forall (λ m, (Message.id m < next_id d)%N) (gmail_messages d)
  ∧ Forall (has_owner d) (gmail_messages d).

(* ===================================================================== *)
(** ** Properties of [formatRelativeTime]                                 *)
(* ===================================================================== *)

(** Bounds on a floored quotient by a positive constant. *)
Ltac div_bound d k :=
  pose proof (Z.div_mod d k ltac:(lia));
  pose proof (Z.mod_pos_bound d k ltac:(lia));
  lia.

Lemma div_div_minutes (d : Z) : d / 60000 / 60 = d / 3600000.
Proof. rewrite Z.div_div by lia. reflexivity. Qed.

Lemma div_div_hours (d : Z) : d / 60000 / 60 / 24 = d / 86400000.
Proof. rewrite !Z.div_div by lia. reflexivity. Qed.

Example formatRelativeTime_two_minutes :
  formatRelativeTime (λ _, Some 0) 125000 (Val (lit "1970-01-01T00:00:00Z"))
  = lit "2m ago".
Proof. reflexivity. Qed.

Example formatRelativeTime_future :
  formatRelativeTime (λ _, Some 5000) 0 (Val (lit "1970-01-01T00:00:05Z"))
  = lit "just now".
Proof. reflexivity. Qed.

Example formatRelativeTime_three_days :
  formatRelativeTime (λ _, Some 0) 300000000 (Val (lit "1970-01-01"))
  = lit "3d ago".
Proof. reflexivity. Qed.

(** C10, as stated: a string that does not parse to a date is rendered as
    "unknown".  The empty string does not parse, and is rendered "never". *)
Lemma formatRelativeTime_empty_string :
  Date_parse_invalid [] = None
  ∧ formatRelativeTime Date_parse_invalid 0 (Val []) = lit "never"
  ∧ formatRelativeTime Date_parse_invalid 0 (Val []) ≠ lit "unknown".
Proof. repeat split. vm_compute. discriminate. Qed.

(** C10, amended: [formatRelativeTime] is total; it yields "never" for
    undefined, null and the empty string, "unknown" for a non-empty string
    that does not parse, "just now" under one elapsed minute, and the floor
    of the elapsed minutes, hours or days followed by "m ago", "h ago" or
    "d ago" under an hour, under a day, and beyond. *)
Theorem formatRelativeTime_spec (Date_parse : str → option Z) (Date_now : Z)
    (iso : nullable str) :
  relative_time Date_parse Date_now iso
    (formatRelativeTime Date_parse Date_now iso).
Proof.
  destruct iso as [| |s]; try constructor.
  destruct s as [|c s]; [constructor|].
  unfold formatRelativeTime; cbn [truthy truthy_str negb nullish].
  destruct (Date_parse (c :: s)) as [time|] eqn:Hparse;
    [|by constructor].
  set (d := Date_now - time).
  assert (Hm : d / 60000 < 1 ↔ d < 60000) by div_bound d 60000.
  assert (Hh : d / 60000 < 60 ↔ d < 3600000) by div_bound d 60000.
  assert (Hd : d / 3600000 < 24 ↔ d < 86400000) by div_bound d 3600000.
  cbv zeta.
  destruct (Z.ltb_spec (d / 60000) 1).
  { eapply rt_just_now; eauto. fold d. lia. }
  destruct (Z.ltb_spec (d / 60000) 60).
  { eapply rt_minutes; eauto. fold d. lia. }
  rewrite div_div_hours, div_div_minutes.
  destruct (Z.ltb_spec (d / 3600000) 24).
  { eapply rt_hours; eauto. fold d. lia. }
  eapply rt_days; eauto. fold d. lia.
Qed.

(* ===================================================================== *)
(** ** Properties of [triggerCmsBlogPostTest]                             *)
(* ===================================================================== *)

(** C9, as stated: the function throws exactly when the response is not
    ok.  A 200 response whose body is not JSON makes it throw as well. *)
Lemma triggerCmsBlogPostTest_ok_response_throws :
  ok html_ok_response = true
  ∧ triggerCmsBlogPostTest (λ _, Resolved html_ok_response) (lit "user_1")
    = Throw SyntaxError.
Proof. split; reflexivity. Qed.

(** C9, amended: once [fetch] has resolved with a response, the function
    returns a value exactly when the response is ok and its body parses as
    JSON, and the value is the parsed body; an ok response whose body does
    not parse rethrows the parser's error; a response that is not ok throws
    an [Error] whose message is the body text when that is non-empty and
    "Unable to trigger CMS blog post test." otherwise. *)
Theorem triggerCmsBlogPostTest_spec (fetch : Request → settled)
    (userId : str) (response : Response) :
  fetch (cmsTestRequest userId) = Resolved response →
  (∀ parsed, triggerCmsBlogPostTest fetch userId = Return parsed
             ↔ ok response = true ∧ json response = Some parsed)
  ∧ (ok response = true → json response = None →
     triggerCmsBlogPostTest fetch userId = Throw SyntaxError)
  ∧ (ok response = false →
     ∃ e, triggerCmsBlogPostTest fetch userId = Throw e
          ∧ name e = lit "Error"
          ∧ (text response ≠ [] → message e = text response)
          ∧ (text response = [] →
             message e = lit "Unable to trigger CMS blog post test.")).
Proof.
  intros Hfetch. unfold triggerCmsBlogPostTest. rewrite Hfetch.
  destruct response as [[] detail [parsed|]]; cbn [ok text json negb].
  - repeat split; try congruence. intros [_ ?]; congruence.
  - repeat split; try congruence. intros [_ ?]; congruence.
  - repeat split; try congruence; try (intros [? _]; congruence).
    intros _. eexists. split; [reflexivity|].
    unfold or_str. destruct detail; cbn; by repeat split.
  - repeat split; try congruence; try (intros [? _]; congruence).
    intros _. eexists. split; [reflexivity|].
    unfold or_str. destruct detail; cbn; by repeat split.
Qed.

Lemma triggerCmsBlogPostTest_spec_witness :
  (λ _, Resolved empty_500_response) (cmsTestRequest (lit "user_1"))
  = Resolved empty_500_response
  ∧ ∃ e, triggerCmsBlogPostTest (λ _, Resolved empty_500_response)
           (lit "user_1") = Throw e
         ∧ message e = lit "Unable to trigger CMS blog post test.".
Proof.
  split; [reflexivity|].
  destruct (triggerCmsBlogPostTest_spec (λ _, Resolved empty_500_response)
              (lit "user_1") empty_500_response eq_refl)
    as (_ & _ & Hthrow).
  destruct (Hthrow eq_refl) as (e & He & _ & _ & Hmsg).
  exists e. split; [exact He | exact (Hmsg eq_refl)].
Defined.

(* ===================================================================== *)
(** ** Properties of the inbox panel                                      *)
(* ===================================================================== *)

Example trim_keeps_inner_space : trim (lit "  a b  ") = lit "a b".
Proof. reflexivity. Qed.

Example search_term_is_sent :
  inboxRequest true (Val (lit "user_1")) Error (debounce (lit " invoice "))
  = Some [(lit "user_id", lit "user_1");
          (lit "status", lit "error");
          (lit "limit", lit "50");
          (lit "query", lit "invoice")].
Proof. reflexivity. Qed.

Lemma trim_start_white_space (s : str) :
  forallb is_white_space s = true → trim_start s = [].
Proof.
  induction s as [|c s IH]; cbn; [done|].
  destruct (is_white_space c); cbn; [exact IH | discriminate].
Qed.

Lemma trim_white_space (s : str) :
  forallb is_white_space s = true → trim s = [].
Proof.
  intros Hws. unfold trim. by rewrite trim_start_white_space.
Qed.

Lemma inboxParams_no_search (userId : str) (filter : InboxFilter) :
  URLSearchParams.has (lit "query") (inboxParams userId filter []) = false.
Proof. by destruct filter. Qed.

(** C7: a search term made of white space only (or empty) is debounced to
    the empty string, and the inbox request is the one issued without a
    search term: it carries no [query] parameter. *)
Theorem whitespace_search_is_absent (showInbox : bool)
    (userId : nullable str) (filter : InboxFilter) (searchTerm : str) :
  forallb is_white_space searchTerm = true →
  debounce searchTerm = []
  ∧ inboxRequest showInbox userId filter (debounce searchTerm)
    = inboxRequest showInbox userId filter []
  ∧ ∀ params,
      inboxRequest showInbox userId filter (debounce searchTerm) = Some params →
      URLSearchParams.has (lit "query") params = false.
Proof.
  intros Hws. unfold debounce. rewrite (trim_white_space _ Hws).
  repeat split. intros params. unfold inboxRequest.
  destruct (negb showInbox || negb (truthy userId)); [done|].
  intros [= <-]. apply inboxParams_no_search.
Qed.

Lemma whitespace_search_is_absent_witness :
  inboxRequest true (Val (lit "user_1")) New (debounce [32; 9; 160; 10]%N)
  = Some [(lit "user_id", lit "user_1");
          (lit "status", lit "new");
          (lit "limit", lit "50")].
Proof.
  destruct (whitespace_search_is_absent true (Val (lit "user_1")) New
              [32; 9; 160; 10]%N eq_refl) as (_ & Hreq & _).
  rewrite Hreq. reflexivity.
Defined.

Lemma find_same_id (prev : InboxMessage) (payload : list InboxMessage) :
  match List.find (λ item, bool_decide (id item = id prev)) payload with
  | Some kept => kept ∈ payload ∧ id kept = id prev
  | None => id prev ∉ id <$> payload
  end.
Proof.
  induction payload as [|m payload IH]; cbn.
  - apply not_elem_of_nil.
  - case_bool_decide as Hid.
    + split; [apply list_elem_of_here | done].
    + destruct (List.find _ payload).
      * destruct IH. split; [by apply list_elem_of_further | done].
      * rewrite not_elem_of_cons. split; [congruence | done].
Qed.

Lemma completeLoad_selection (r : load_result) (v : InboxView) :
  selection_after r (selectedMessage v)
    (selectedMessage (completeLoad true r v)).
Proof.
  destruct r as [payload|]; cbn; [|constructor].
  destruct payload as [|first rest]; [constructor|].
  unfold selectAfterLoad.
  destruct (selectedMessage v) as [prev|]; [|constructor].
  pose proof (find_same_id prev (first :: rest)) as Hfind.
  destruct (List.find _ (first :: rest)) as [kept|].
  - destruct Hfind. by constructor.
  - by constructor.
Qed.

(** The selection is null exactly when the displayed list is empty, and
    is otherwise one of the displayed messages. *)
Lemma completeLoad_selection_in_messages (r : load_result) (v : InboxView) :
  let v' := completeLoad true r v in
  (selectedMessage v' = None ↔ messages v' = [])
  ∧ (∀ m, selectedMessage v' = Some m → m ∈ messages v').
Proof.
  pose proof (completeLoad_selection r v) as Hsel. cbv zeta.
  assert (Hlist : messages (completeLoad true r v)
                  = match r with Loaded p => p | LoadFailed => [] end)
    by by destruct r.
  rewrite Hlist. clear Hlist.
  destruct Hsel as [?|?|payload prev kept Hin _|first rest|first rest prev _].
  - split; [done|]. by intros m.
  - split; [done|]. by intros m.
  - split.
    + split; [done|]. intros ->. by apply elem_of_nil in Hin.
    + by intros m [= <-].
  - split; [done|]. intros m [= <-]. apply list_elem_of_here.
  - split; [done|]. intros m [= <-]. apply list_elem_of_here.
Qed.

(** C8: after a completed load the selection is null if the load failed or
    the page is empty; otherwise it is an element of the page: the loaded
    copy of the previous selection when its id is still there, the first
    message of the page when it is not or when nothing was selected.  In
    particular it is null exactly when the displayed list is empty. *)
Theorem selection_after_load (r : load_result) (v : InboxView) :
  let v' := completeLoad true r v in
  selection_after r (selectedMessage v) (selectedMessage v')
  ∧ (selectedMessage v' = None ↔ r = LoadFailed ∨ r = Loaded [])
  ∧ (selectedMessage v' = None ↔ messages v' = [])
  ∧ (∀ m, selectedMessage v' = Some m → m ∈ messages v').
Proof.
  cbv zeta. split; [apply completeLoad_selection|].
  split; [|apply completeLoad_selection_in_messages].
  destruct (completeLoad_selection_in_messages r v) as [[Hnone Hempty] _].
  split.
  - intros Hsel. specialize (Hnone Hsel).
    destruct r as [payload|]; [right | by left].
    cbn in Hnone. by subst.
  - intros [-> | ->]; reflexivity.
Qed.

(* ===================================================================== *)
(** ** Properties of the sync buttons                                     *)
(* ===================================================================== *)

Lemma triggerSync_requests (userId : nullable str) (st : HomeState)
    (openInsights : bool) (r : request) :
  r ∈ (triggerSync userId st openInsights).2 →
  r = PostSyncStart (nullish userId []) 200 openInsights.
Proof.
  unfold triggerSync. destruct (negb (truthy userId)); cbn.
  - by intros ?%elem_of_nil.
  - by intros ->%list_elem_of_singleton.
Qed.

Lemma baselineReady_true (st : HomeState) :
  baselineReady st = true ↔ baseline_ready (gmailStatus st) = Val true.
Proof.
  unfold baselineReady.
  destruct (baseline_ready (gmailStatus st)) as [| |[]]; cbn;
    split; congruence.
Qed.

(** C5: both manual sync buttons are disabled while [baseline_ready] is not
    true or a sync is in flight; so a click starts a sync only when Gmail is
    connected, the baseline is ready and no sync is running. *)
Theorem manual_sync_guard (userId : nullable str) (st : HomeState) :
  (baseline_ready (gmailStatus st) ≠ Val true ∨ isSyncing st = true →
   nextDisabled st = true ∧ syncAgainDisabled st = true)
  ∧ (∀ r, r ∈ (clickNext userId st).2 →
       gmailState st = Connected
       ∧ baseline_ready (gmailStatus st) = Val true
       ∧ isSyncing st = false)
  ∧ (∀ r, r ∈ (clickSyncAgain userId st).2 →
       connected (gmailStatus st) = true
       ∧ baseline_ready (gmailStatus st) = Val true
       ∧ isSyncing st = false).
Proof.
  pose proof (baselineReady_true st) as Hready.
  unfold clickNext, clickSyncAgain, nextDisabled, syncAgainDisabled, canProceed.
  split; [|split].
  - intros [Hnot | ->].
    + destruct (baselineReady st); [destruct Hnot; by apply Hready|].
      by rewrite !andb_false_r, !orb_true_r.
    + by rewrite !orb_true_r.
  - intros r. destruct (isSyncing st); [rewrite orb_true_r|rewrite orb_false_r].
    { by intros ?%elem_of_nil. }
    destruct (baselineReady st); [|rewrite andb_false_r; by intros ?%elem_of_nil].
    case_bool_decide; [|by intros ?%elem_of_nil].
    intros _. repeat split; [done | by apply Hready].
  - intros r. destruct (isSyncing st); [rewrite orb_true_r|rewrite orb_false_r].
    { by intros ?%elem_of_nil. }
    destruct (baselineReady st); [|rewrite orb_true_r; by intros ?%elem_of_nil].
    destruct (connected (gmailStatus st)); [|by intros ?%elem_of_nil].
    intros _. repeat split. by apply Hready.
Qed.

(* ===================================================================== *)
(** ** Properties of the automatic first sync                             *)
(* ===================================================================== *)

Lemma apply_setters_app (st : HomeState) (q1 q2 : list setter) :
  apply_setters st (q1 ++ q2) = apply_setters (apply_setters st q1) q2.
Proof. apply foldl_app. Qed.

(** Setters other than [setAutoSynced] leave the flag alone. *)
Lemma apply_setters_autoSynced (q : list setter) (st : HomeState) :
  Forall (λ s, sets_autoSynced s = false) q →
  autoSynced (apply_setters st q) = autoSynced st.
Proof.
  intros Hq. revert st. induction Hq as [|s q Hs _ IH]; intros st; [done|].
  cbn. rewrite IH. by destruct st, s.
Qed.

(** No callback or promise continuation calls [setAutoSynced]. *)
Lemma handle_autoSynced (userId : nullable str) (st : HomeState) (e : event) :
  Forall (λ s, sets_autoSynced s = false) (handle userId st e).1.
Proof.
  destruct e; cbn;
    unfold gmailStatusSettled, hubspotStatusSettled, syncResponded,
      syncFinished, disconnectResponded, disconnectFinished, clickNext,
      clickSyncAgain, clickConnect, clickDisconnect, handleConnectGmail,
      handleConnectHubSpot, handleDisconnectGmail, triggerSync,
      fetchGmailStatus, and_then, nothing;
    repeat case_match; cbn; repeat constructor.
Qed.

Lemma sync_starts_app (a b : list request) :
  sync_starts (a ++ b) = (sync_starts a + sync_starts b)%nat.
Proof. unfold sync_starts. by rewrite filter_app, length_app. Qed.

Lemma auto_syncs_app (a b : list (origin * request)) :
  auto_syncs (a ++ b) = (auto_syncs a + auto_syncs b)%nat.
Proof. unfold auto_syncs. by rewrite filter_app, length_app. Qed.

Lemma auto_syncs_by_handler (out : list request) :
  auto_syncs ((λ r, (ByHandler, r)) <$> out) = 0%nat.
Proof.
  unfold auto_syncs. induction out as [|r out IH]; [done|].
  rewrite fmap_cons, filter_cons_False; [exact IH | cbn; discriminate].
Qed.

Lemma auto_syncs_by_effect (out : list request) :
  auto_syncs ((λ r, (ByEffect, r)) <$> out) = sync_starts out.
Proof.
  unfold auto_syncs, sync_starts. induction out as [|r out IH]; [done|].
  assert (Hsame : is_auto_sync (ByEffect, r) = is_sync_start r) by done.
  rewrite fmap_cons. destruct (is_sync_start r) eqn:Hr.
  - rewrite !filter_cons_True by done. cbn. by rewrite IH.
  - rewrite !filter_cons_False by congruence. exact IH.
Qed.

(** The dependencies of two renders for the same user that agree on the
    connection states differ exactly when [autoSynced] differs. *)
Lemma deps_of_changed (u : nullable str) (st st' : HomeState) :
  gmailState st' = gmailState st →
  hubspotState st' = hubspotState st →
  baseline_ready (gmailStatus st') = baseline_ready (gmailStatus st) →
  bool_decide (deps_of u st ≠ deps_of u st')
  = negb (bool_decide (autoSynced st = autoSynced st')).
Proof.
  intros Hg Hh Hb. unfold deps_of. rewrite Hg, Hh, Hb.
  repeat case_bool_decide; cbn; congruence.
Qed.

(** One commit, seen through the fields the automatic trigger depends on. *)
Lemma commit_spec (prev : option deps) (u : nullable str) (st : HomeState) :
  let fx := commit prev u st in
  let st' := apply_setters st fx.1 in
  let user_changed :=
    match prev with
    | None => true
    | Some d => bool_decide (dep_userId d ≠ u)
    end in
  let auto_changed :=
    match prev with
    | None => true
    | Some d => bool_decide (d ≠ deps_of u st)
    end in
  let fire := auto_changed && ready u st && negb (autoSynced st) in
  gmailState st' = gmailState st
  ∧ hubspotState st' = hubspotState st
  ∧ baseline_ready (gmailStatus st') = baseline_ready (gmailStatus st)
  ∧ autoSynced st'
    = (if fire then true else if user_changed then false else autoSynced st)
  ∧ sync_starts fx.2 = (if fire then 1 else 0)%nat.
Proof.
  cbv zeta. unfold commit.
  generalize (match prev with
              | None => true
              | Some d => bool_decide (dep_userId d ≠ u)
              end) as user_changed.
  generalize (match prev with
              | None => true
              | Some d => bool_decide (d ≠ deps_of u st)
              end) as auto_changed.
  intros auto_changed user_changed.
  unfold statusEffect, resetEffect, autoSyncEffect, triggerSync,
    fetchGmailStatus, fetchHubSpotStatus, ready, and_then, nothing.
  destruct st as [gs g gd h hs he si sy sm au]; cbn.
  destruct user_changed, auto_changed, au, (truthy u);
    repeat case_bool_decide; cbn; done.
Qed.

Lemma ready_same_states (u : nullable str) (st st' : HomeState) :
  gmailState st' = gmailState st →
  hubspotState st' = hubspotState st →
  ready u st' = ready u st.
Proof. intros Hg Hh. unfold ready. by rewrite Hg, Hh. Qed.

Lemma user_changed_deps (d : deps) (u : nullable str) (st : HomeState) :
  bool_decide (dep_userId d ≠ u) = true →
  bool_decide (d ≠ deps_of u st) = true.
Proof.
  rewrite !bool_decide_eq_true. intros Hu ->. by apply Hu.
Qed.

(** Three commits after an event: the component is at rest, the connection
    states are those the event left, and the automatic sync has fired at
    most once. *)
Lemma settle_spec (prev : option deps) (u : nullable str) (st : HomeState) :
  let c := (settle prev u st).1 in
  let out := (settle prev u st).2 in
  let user_changed :=
    match prev with
    | None => true
    | Some d => bool_decide (dep_userId d ≠ u)
    end in
  let auto_changed :=
    match prev with
    | None => true
    | Some d => bool_decide (d ≠ deps_of u st)
    end in
  user c = u
  ∧ committed c = deps_of u (state c)
  ∧ gmailState (state c) = gmailState st
  ∧ hubspotState (state c) = hubspotState st
  ∧ autoSynced (state c)
    = (if user_changed then ready u st
       else autoSynced st || auto_changed && ready u st)
  ∧ auto_syncs out
    = Nat.b2n (if user_changed then ready u st
               else auto_changed && ready u st && negb (autoSynced st)).
Proof.
  cbv zeta. unfold settle, rerender.
  pose proof (commit_spec prev u st) as H1. cbv zeta in H1.
  set (st2 := apply_setters st (commit prev u st).1) in *.
  pose proof (commit_spec (Some (deps_of u st)) u st2) as H2. cbv zeta in H2.
  set (st3 := apply_setters st2 (commit (Some (deps_of u st)) u st2).1) in *.
  pose proof (commit_spec (Some (deps_of u st2)) u st3) as H3. cbv zeta in H3.
  set (st4 := apply_setters st3 (commit (Some (deps_of u st2)) u st3).1) in *.
  destruct H1 as (Hg1 & Hh1 & Hb1 & Ha1 & Hn1).
  destruct H2 as (Hg2 & Hh2 & Hb2 & Ha2 & Hn2).
  destruct H3 as (Hg3 & Hh3 & Hb3 & Ha3 & Hn3).
  rewrite (deps_of_changed u st st2 Hg1 Hh1 Hb1) in Ha2, Hn2.
  rewrite (deps_of_changed u st2 st3 Hg2 Hh2 Hb2) in Ha3, Hn3.
  rewrite (ready_same_states u st2 st3 Hg2 Hh2) in Ha3, Hn3.
  rewrite (ready_same_states u st st2 Hg1 Hh1) in Ha2, Hn2, Ha3, Hn3.
  assert (Hsame : bool_decide (dep_userId (deps_of u st) ≠ u) = false)
    by (by apply bool_decide_eq_false; intros []).
  assert (Hsame' : bool_decide (dep_userId (deps_of u st2) ≠ u) = false)
    by (by apply bool_decide_eq_false; intros []).
  rewrite Hsame in Ha2. rewrite Hsame' in Ha3. clear Hsame Hsame'.
  assert (Huc : match prev with
                | None => true
                | Some d => bool_decide (dep_userId d ≠ u)
                end = true →
                match prev with
                | None => true
                | Some d => bool_decide (d ≠ deps_of u st)
                end = true)
    by (destruct prev; [apply user_changed_deps | done]).
  revert Ha1 Hn1 Huc.
  generalize (match prev with
              | None => true
              | Some d => bool_decide (dep_userId d ≠ u)
              end) as user_changed.
  generalize (match prev with
              | None => true
              | Some d => bool_decide (d ≠ deps_of u st)
              end) as auto_changed.
  intros auto_changed user_changed Ha1 Hn1 Huc.
  cbn [fst snd user state committed].
  rewrite auto_syncs_by_effect, !sync_starts_app, Hn1, Hn2, Hn3.
  assert (Hdeps : deps_of u st3 = deps_of u st4).
  { unfold deps_of. rewrite Hg3, Hh3, Hb3. f_equal.
    rewrite Ha3, Ha2.
    destruct user_changed, auto_changed, (ready u st),
      (autoSynced st) eqn:Ha, (autoSynced st2) eqn:Ha';
      cbn in *; try done; try (by discriminate Huc);
      rewrite ?Ha'; cbn; done. }
  split; [done|]. split; [done|].
  split; [congruence|]. split; [congruence|].
  rewrite Ha3, Ha2, Ha1.
  destruct user_changed, auto_changed, (ready u st), (autoSynced st);
    cbn in *; try done; by discriminate Huc.
Qed.

(** After [settle] no effect is left to run: one more commit does
    nothing, so rendering further changes neither state nor requests. *)
Lemma settle_quiescent (prev : option deps) (u : nullable str)
    (st : HomeState) :
  let c := (settle prev u st).1 in
  commit (Some (committed c)) (user c) (state c) = nothing.
Proof.
  cbv zeta.
  destruct (settle_spec prev u st) as (Hu & Hd & _).
  rewrite Hd, Hu. unfold commit. cbn [dep_userId deps_of].
  rewrite !bool_decide_eq_false_2; [done | by intros [] | by intros []].
Qed.

(** Mounting starts no sync and leaves the trigger armed. *)
Lemma mount_spec (u : nullable str) :
  at_rest (mount u).1
  ∧ user (mount u).1 = u
  ∧ autoSynced (state (mount u).1) = false
  ∧ auto_syncs (mount u).2 = 0%nat.
Proof.
  unfold mount.
  destruct (settle_spec None u initialState) as (Hu & Hd & Hg & Hh & Ha & Hn).
  assert (Hready : ready u initialState = false) by done.
  rewrite Hready in Ha, Hn.
  split; [split|done].
  - by rewrite Hd, Hu.
  - unfold both_connected, ready. by rewrite Hg.
Qed.

(** One event, from rest to rest. *)
Lemma step_spec (c : config) (e : event) :
  at_rest c →
  let c' := (step c e).1 in
  let out := (step c e).2 in
  at_rest c'
  ∧ (keeps_user (user c) e →
     user c' = user c
     ∧ autoSynced (state c') = autoSynced (state c) || both_connected c'
     ∧ auto_syncs out
       = Nat.b2n (negb (autoSynced (state c)) && both_connected c'))
  ∧ (∀ u', e = UserIs u' → u' ≠ user c →
     user c' = u'
     ∧ autoSynced (state c') = both_connected c'
     ∧ auto_syncs out = Nat.b2n (both_connected c')).
Proof.
  intros [Hcommitted Hfired]. cbv zeta. unfold step.
  set (u := match e with UserIs u => u | _ => user c end).
  set (a := handle (user c) (state c) e).
  set (st1 := apply_setters (state c) a.1).
  assert (Hauto : autoSynced st1 = autoSynced (state c))
    by apply apply_setters_autoSynced, handle_autoSynced.
  destruct (settle_spec (Some (committed c)) u st1)
    as (Hu & Hd & Hg & Hh & Ha & Hn).
  destruct (settle (Some (committed c)) u st1) as [c' out].
  cbn [fst snd] in *.
  rewrite auto_syncs_app, auto_syncs_by_handler, Nat.add_0_l.
  assert (Hboth : both_connected c' = ready u st1).
  { unfold both_connected. rewrite Hu. by apply ready_same_states. }
  rewrite Hcommitted in Ha, Hn. cbn [dep_userId deps_of] in Ha, Hn.
  rewrite Hauto in Ha, Hn.
  destruct (decide (u = user c)) as [Hsame|Hdiff].
  - (* the same user *)
    rewrite Hsame in *.
    rewrite bool_decide_eq_false_2 in Ha, Hn by (by intros []).
    assert (Ha' : autoSynced (state c')
                  = autoSynced (state c) || ready (user c) st1
                  ∧ auto_syncs out
                    = Nat.b2n (negb (autoSynced (state c))
                               && ready (user c) st1)).
    { rewrite Ha, Hn. case_bool_decide as Hchanged.
      - split; [done|]. by rewrite andb_comm.
      - (* nothing the effect depends on has changed *)
        assert (Hdeps : deps_of (user c) (state c) = deps_of (user c) st1)
          by (by destruct (decide (deps_of (user c) (state c)
                                   = deps_of (user c) st1))).
        injection Hdeps as _ Hg' Hh' _.
        assert (Hready : ready (user c) st1 = both_connected c)
          by (unfold both_connected, ready; by rewrite Hg', Hh').
        rewrite Hready.
        destruct (both_connected c); [by rewrite Hfired|].
        by rewrite !andb_false_r, !orb_false_r. }
    destruct Ha' as [Ha' Hn']. rewrite Hboth.
    split; [split|split].
    + by rewrite Hd, Hu.
    + rewrite Hboth, Ha'. intros ->. by rewrite orb_true_r.
    + done.
    + intros u' -> Hne. by subst u.
  - (* another user *)
    assert (He : ∃ u', e = UserIs u') by (subst u; destruct e; by eauto).
    destruct He as [u' ->]. subst u.
    rewrite bool_decide_eq_true_2 in Ha, Hn by done.
    rewrite Hboth.
    split; [split|split].
    + by rewrite Hd, Hu.
    + by rewrite Hboth, Ha.
    + intros Hkeep. by destruct Hdiff.
    + by intros ? [= <-] _.
Qed.

Lemma reachable_at_rest (c : config) : reachable c → at_rest c.
Proof.
  induction 1 as [u|c e _ IH]; [apply mount_spec | by apply step_spec].
Qed.

Lemma run_cons (c : config) (e : event) (trace : list event) :
  run c (e :: trace)
  = ((run (step c e).1 trace).1, (step c e).2 ++ (run (step c e).1 trace).2).
Proof.
  cbn [run]. destruct (step c e) as [c' out]. cbn [fst snd].
  by destruct (run c' trace) as [c'' out'].
Qed.

(** A trace under one user identity. *)
Lemma run_spec (trace : list event) (c : config) :
  at_rest c →
  Forall (keeps_user (user c)) trace →
  at_rest (run c trace).1
  ∧ user (run c trace).1 = user c
  ∧ autoSynced (state (run c trace).1)
    = autoSynced (state c) || ever_connected c trace
  ∧ auto_syncs (run c trace).2
    = Nat.b2n (negb (autoSynced (state c)) && ever_connected c trace).
Proof.
  revert c. induction trace as [|e trace IH]; intros c Hrest Hkeep.
  - cbn. by rewrite orb_false_r, andb_false_r.
  - apply Forall_cons in Hkeep as [Hkeep Hkeeps].
    destruct (step_spec c e Hrest) as (Hrest' & Hsame & _).
    destruct (Hsame Hkeep) as (Hu & Ha & Hn).
    rewrite <- Hu in Hkeeps.
    destruct (IH _ Hrest' Hkeeps) as (Hrest'' & Hu' & Ha' & Hn').
    rewrite run_cons. cbn [fst snd ever_connected].
    rewrite auto_syncs_app, Hn, Hn', Ha', Ha, Hu', Hu.
    split; [done|]. split; [done|].
    destruct (autoSynced (state c)), (both_connected (step c e).1),
      (ever_connected (step c e).1 trace); done.
Qed.

(** A change of identity while both integrations still show as connected
    arms the trigger again: it fires once more, for the new user. *)
Example user_change_rearms :
  auto_syncs
    (run (mount (Val (lit "user_1"))).1
       [GmailStatusSettled (Some gmail_connected_status);
        HubSpotStatusSettled (Some hubspot_connected_status);
        SyncFinished;
        UserIs (Val (lit "user_2"));
        GmailStatusSettled (Some gmail_connected_status)]).2 = 2%nat.
Proof. vm_compute. reflexivity. Qed.

(** C4: during a session the automatic trigger starts no sync at mount;
    under one user identity it starts exactly one sync, at the first event
    that leaves both integrations connected, and none once it has fired;
    when the identity changes it is armed again and fires for the new
    identity as soon as both integrations show as connected. *)
Theorem auto_sync_exactly_once (c : config) (trace : list event) :
  reachable c →
  Forall (keeps_user (user c)) trace →
  (∀ u, auto_syncs (mount u).2 = 0%nat
        ∧ autoSynced (state (mount u).1) = false)
  ∧ auto_syncs (run c trace).2
    = Nat.b2n (negb (autoSynced (state c)) && ever_connected c trace)
  ∧ autoSynced (state (run c trace).1)
    = autoSynced (state c) || ever_connected c trace
  ∧ (both_connected c = true → autoSynced (state c) = true)
  ∧ (∀ u', u' ≠ user c →
       auto_syncs (step c (UserIs u')).2
       = Nat.b2n (both_connected (step c (UserIs u')).1)
       ∧ autoSynced (state (step c (UserIs u')).1)
         = both_connected (step c (UserIs u')).1).
Proof.
  intros Hrest%reachable_at_rest Hkeep.
  split; [intros u; split; apply mount_spec|].
  destruct (run_spec trace c Hrest Hkeep) as (_ & _ & Ha & Hn).
  split; [done|]. split; [done|]. split; [apply Hrest|].
  intros u' Hne.
  destruct (step_spec c (UserIs u') Hrest) as (_ & _ & Hnew).
  destruct (Hnew u' eq_refl Hne) as (_ & Ha' & Hn'). done.
Qed.

Lemma auto_sync_exactly_once_witness :
  reachable (mount (Val (lit "user_1"))).1
  ∧ Forall (keeps_user (user (mount (Val (lit "user_1"))).1))
      [GmailStatusSettled (Some gmail_connected_status);
       HubSpotStatusSettled (Some hubspot_connected_status);
       SyncFinished;
       GmailStatusSettled (Some gmail_connected_status)]
  ∧ auto_syncs
      (run (mount (Val (lit "user_1"))).1
         [GmailStatusSettled (Some gmail_connected_status);
          HubSpotStatusSettled (Some hubspot_connected_status);
          SyncFinished;
          GmailStatusSettled (Some gmail_connected_status)]).2 = 1%nat.
Proof.
  split; [constructor|]. split; [repeat constructor|].
  destruct (auto_sync_exactly_once (mount (Val (lit "user_1"))).1
              [GmailStatusSettled (Some gmail_connected_status);
               HubSpotStatusSettled (Some hubspot_connected_status);
               SyncFinished;
               GmailStatusSettled (Some gmail_connected_status)]
              (reachable_mount _) ltac:(repeat constructor))
    as (_ & Hn & _).
  rewrite Hn. vm_compute. reflexivity.
Defined.


(* ===================================================================== *)
(** ** Invariants of the message store                                    *)
(* ===================================================================== *)

Lemma after_baseline_has_owner (d : db) (m : Message.t) :
  after_baseline d m → has_owner d m.
Proof. intros (c & t & Hc & _). unfold has_owner. by rewrite Hc. Qed.

(** Rewriting rows in place, keeping key and reception time. *)
Lemma store_ok_map_rows (f : Message.t → Message.t) (d : db) :
  (∀ m, Message.key (f m) = Message.key m) →
  (∀ m, Message.received_at (f m) = Message.received_at m) →
  (∀ m, status_in_enum m → status_in_enum (f m)) →
  store_ok d →
  store_ok {| gmail_connections := gmail_connections d;
              gmail_messages := f <$> gmail_messages d;
              next_id := next_id d |}.
Proof.
  intros Hkey Hreceived Hstatus (Hdup & Hbase & Henum).
  split; [|split]; cbn.
  - unfold keys in *. cbn. rewrite <- list_fmap_compose.
    erewrite list_fmap_ext; [exact Hdup|].
    intros _ m _. apply Hkey.
  - apply Forall_fmap. eapply Forall_impl; [exact Hbase|].
    intros m (c & t & Hc & Ht & Hle). exists c, t. cbn.
    pose proof (Hkey m) as [= Hu _]. by rewrite Hu, Hreceived.
  - apply Forall_fmap. eapply Forall_impl; [exact Henum|]. apply Hstatus.
Qed.

(** Deleting rows. *)
Lemma store_ok_filter (P : Message.t → Prop) `{∀ m, Decision (P m)}
    (d : db) :
  store_ok d →
  store_ok {| gmail_connections := gmail_connections d;
              gmail_messages := filter P (gmail_messages d);
              next_id := next_id d |}.
Proof.
  intros (Hdup & Hbase & Henum). split; [|split]; cbn.
  - unfold keys in *. cbn.
    apply (sublist_NoDup _ (Message.key <$> gmail_messages d)); [exact Hdup|].
    apply fmap_sublist, sublist_filter.
  - rewrite Forall_forall in *. intros m [_ Hm]%list_elem_of_filter.
    by apply Hbase.
  - rewrite Forall_forall in *. intros m [_ Hm]%list_elem_of_filter.
    by apply Henum.
Qed.

(** Rewriting connections, keeping every baseline. *)
Lemma store_ok_connections (conns : gmap string Connection.t) (d : db) :
  (∀ u c, gmail_connections d !! u = Some c →
          ∃ c', conns !! u = Some c'
                ∧ Connection.baseline_at c' = Connection.baseline_at c) →
  store_ok d →
  store_ok {| gmail_connections := conns;
              gmail_messages := gmail_messages d;
              next_id := next_id d |}.
Proof.
  intros Hkeep (Hdup & Hbase & Henum). split; [done|]. split; [|done].
  cbn. eapply Forall_impl; [exact Hbase|].
  intros m (c & t & Hc & Ht & Hle).
  destruct (Hkeep _ _ Hc) as (c' & Hc' & Hsame).
  exists c', t. cbn. by rewrite Hsame.
Qed.

Lemma merge_row_key (old new : Message.t) :
  Message.key (merge_row old new) = Message.key old.
Proof. reflexivity. Qed.

Lemma merge_row_status (old new : Message.t) :
  status_in_enum old → status_in_enum new →
  status_in_enum (merge_row old new).
Proof.
  unfold status_in_enum, merge_row. cbn. by case_bool_decide.
Qed.

Lemma row_of_status (u : string) (now : Z) (raw : raw_message)
    (outcome : enrichment) :
  status_in_enum (row_of u now raw outcome).
Proof. by eexists. Qed.

Lemma insert_message_ok (new : Message.t) (d d' : db) :
  insert_message new d = Some d' →
  after_baseline d new → status_in_enum new →
  store_ok d → store_ok d'.
Proof.
  unfold insert_message. intros Hins Hnew Hstatus (Hdup & Hbase & Henum).
  destruct (_ && _) eqn:Hchecks; [|done].
  apply andb_true_iff in Hchecks as [_ Hfresh%bool_decide_eq_true].
  injection Hins as <-. split; [|split]; cbn.
  - unfold keys in *. cbn. rewrite fmap_app. apply NoDup_app.
    split; [done|]. split; [|apply NoDup_singleton].
    intros k Hk ->%list_elem_of_singleton. by apply Hfresh.
  - apply Forall_app. split; [done|]. by apply Forall_singleton.
  - apply Forall_app. split; [done|]. by apply Forall_singleton.
Qed.

Lemma upsert_message_connections (new : Message.t) (d : db) :
  gmail_connections (upsert_message new d) = gmail_connections d.
Proof.
  unfold upsert_message, insert_message.
  case_bool_decide; [done|]. by destruct (_ && _).
Qed.

Lemma upsert_message_ok (new : Message.t) (d : db) :
  after_baseline d new → status_in_enum new →
  store_ok d → store_ok (upsert_message new d).
Proof.
  intros Hnew Hstatus Hok. unfold upsert_message. case_bool_decide.
  - apply (store_ok_map_rows
             (λ old, if decide (Message.key old = Message.key new)
                     then merge_row old new else old)); [| | |done].
    + intros m. by case_decide.
    + intros m. by case_decide.
    + intros m Hm. case_decide; [by apply merge_row_status | done].
  - destruct (insert_message new d) as [d'|] eqn:Hins; [|done].
    by eapply insert_message_ok.
Qed.

Lemma ingest_connections (u : string) (now : Z) (batch : list raw_message)
    (d : db) :
  gmail_connections (ingest u now batch d) = gmail_connections d.
Proof.
  unfold ingest. revert d. induction batch as [|raw batch IH]; intros d.
  - done.
  - cbn. by rewrite IH, upsert_message_connections.
Qed.

(** The ingestion filter: every message of the batch was received at or
    after the baseline of the connection it is ingested for. *)
Lemma ingest_ok (u : string) (c : Connection.t) (now : Z)
    (batch : list raw_message) (d : db) :
  gmail_connections d !! u = Some c →
  Forall (λ raw, Connection.baseline_at c ≤ raw_received_at raw) batch →
  store_ok d → store_ok (ingest u now batch d).
Proof.
  unfold ingest. intros Hc Hbatch. revert d Hc.
  induction Hbatch as [|raw batch Hraw _ IH]; intros d Hc Hok; [done|].
  cbn. apply IH.
  - by rewrite upsert_message_connections.
  - apply upsert_message_ok; [|apply row_of_status|done].
    by exists c, (raw_received_at raw).
Qed.

Lemma fetch_batch_after (mailbox : list raw_message) (floor : Z)
    (max_messages : nat) :
  Forall (λ raw, floor < raw_received_at raw)
    (fetch_batch mailbox floor max_messages).
Proof.
  unfold fetch_batch. apply Forall_take.
  rewrite merge_sort_Permutation.
  apply Forall_forall. by intros raw [? _]%list_elem_of_filter.
Qed.

Lemma fetch_floor_baseline (c : Connection.t) :
  Connection.baseline_at c ≤ fetch_floor c.
Proof. unfold fetch_floor. destruct (Connection.last_poll_at c); lia. Qed.

Lemma evict_ok (cap : nat) (u : string) (d : db) :
  store_ok d → store_ok (evict cap u d).
Proof. apply store_ok_filter. Qed.

Lemma sync_pass_ok (cap : nat) (u : string) (c : Connection.t) (now : Z)
    (mailbox : list raw_message) (max_messages : nat) (d : db) :
  gmail_connections d !! u = Some c →
  store_ok d → store_ok (sync_pass cap u c now mailbox max_messages d).1.
Proof.
  intros Hc Hok. unfold sync_pass. cbn [fst]. apply evict_ok.
  set (batch := fetch_batch mailbox (fetch_floor c) max_messages).
  apply (store_ok_connections _ (ingest u now batch d)).
  - rewrite ingest_connections. intros u' c' Hc'.
    destruct (decide (u = u')) as [<-|Hne].
    + rewrite lookup_insert_eq. eexists. split; [done|]. cbn. congruence.
    + rewrite lookup_insert_ne by done. by exists c'.
  - eapply ingest_ok; [done| |done].
    eapply Forall_impl; [apply fetch_batch_after|].
    intros raw Hraw. cbn in Hraw. pose proof (fetch_floor_baseline c). lia.
Qed.

Lemma connect_ok (u gmail_user : string) (email : option string) (now : Z)
    (d : db) :
  store_ok d → store_ok (connect u gmail_user email now d).
Proof.
  intros Hok. unfold connect.
  apply (store_ok_connections _ d); [|done].
  intros u' c' Hc'. destruct (decide (u = u')) as [<-|Hne].
  - rewrite lookup_insert_eq, Hc'. by eexists.
  - rewrite lookup_insert_ne by done. by exists c'.
Qed.

Lemma disconnect_ok (u : string) (d : db) :
  store_ok d → store_ok (disconnect u d).
Proof.
  intros Hok.
  destruct (store_ok_filter (λ m, Message.user_id m ≠ u) d Hok)
    as (Hdup & Hbase & Henum).
  split; [done|]. split; [|done]. cbn in *.
  rewrite Forall_forall in *. intros m Hm.
  destruct (Hbase m Hm) as (c & t & Hc & Ht & Hle).
  apply list_elem_of_filter in Hm as [Hne _].
  exists c, t. cbn in *. by rewrite lookup_delete_ne.
Qed.

Lemma report_enrichment_ok (u : string) (now : Z) (raw : raw_message)
    (outcome : enrichment) (d : db) :
  store_ok d → store_ok (report_enrichment u now raw outcome d).
Proof.
  intros Hok. unfold report_enrichment.
  apply (store_ok_map_rows
           (λ old, if bool_decide (Message.key old
                                   = Message.key (row_of u now raw outcome))
                      && bool_decide (Message.status old = InboxFilter_text New)
                   then merge_row old (row_of u now raw outcome)
                   else old)); [| | |done].
  - intros m. by destruct (_ && _).
  - intros m. by destruct (_ && _).
  - intros m Hm. destruct (_ && _); [|done].
    apply merge_row_status; [done | apply row_of_status].
Qed.

Lemma exec_ok (cap : nat) (d : db) (o : op) :
  store_ok d → store_ok (exec cap d o).
Proof.
  intros Hok. destruct o as [u g e now|u now mailbox n|u now raw out|u]; cbn.
  - by apply connect_ok.
  - unfold runSync.
    destruct (gmail_connections d !! u) as [c|] eqn:Hc; [|done].
    destruct mailbox as [available|]; [|done].
    pose proof (sync_pass_ok cap u c now available n d Hc Hok) as Hpass.
    by destruct (sync_pass cap u c now available n d).
  - by apply report_enrichment_ok.
  - by apply disconnect_ok.
Qed.

Lemma empty_db_ok : store_ok empty_db.
Proof. split; [apply NoDup_nil_2|]. by split; apply Forall_nil. Qed.

(** Every history leaves the store in order. *)
Lemma after_ok (cap : nat) (history : list op) : store_ok (after cap history).
Proof.
  unfold after. induction history as [|o history IH] using rev_ind.
  - apply empty_db_ok.
  - rewrite foldl_snoc. by apply exec_ok.
Qed.

(** The scenario of the design document: with the baseline at instant 1000
    a message received at 999 is left out and one received at 1001 is
    stored with status new. *)
Example baseline_scenario :
  (λ m, (Message.message_id m, Message.status m, Message.received_at m))
  <$> gmail_messages
        (after 3 [OpConnect "u1" "g1" None 1000;
                  OpSyncStart "u1" 1002
                    (Some [raw_sample "m1" 999; raw_sample "m2" 1001]) 200])
  = [("m2", "new", Some 1001)].
Proof. vm_compute. reflexivity. Qed.

(** With a cap of 3, five messages ingested over two passes leave the
    three received last. *)
Example eviction_scenario :
  Message.message_id
  <$> gmail_messages
        (after 3 [OpConnect "u1" "g1" None 1000;
                  OpSyncStart "u1" 1600
                    (Some [raw_sample "m3" 1500; raw_sample "m1" 1100;
                           raw_sample "m2" 1200]) 200;
                  OpSyncStart "u1" 1900
                    (Some [raw_sample "m1" 1100; raw_sample "m3" 1500;
                           raw_sample "m5" 1800; raw_sample "m4" 1700]) 200])
  = ["m3"; "m4"; "m5"].
Proof. vm_compute. reflexivity. Qed.

(** C1: whatever the history of connects, sync passes, enrichment reports
    and disconnects, every stored message belongs to a connection and was
    received at or after that connection's baseline: no stored message is
    older than the baseline of its owner. *)
Theorem no_message_before_baseline (cap : nat) (history : list op) :
  let d := after cap history in
  Forall (after_baseline d) (gmail_messages d)
  ∧ ∀ m c t,
      m ∈ gmail_messages d →
      gmail_connections d !! Message.user_id m = Some c →
      Message.received_at m = Some t →
      ¬ t < Connection.baseline_at c.
Proof.
  cbv zeta. destruct (after_ok cap history) as (_ & Hbase & _).
  split; [exact Hbase|].
  intros m c t Hm Hc Ht. rewrite Forall_forall in Hbase.
  destruct (Hbase m Hm) as (c' & t' & Hc' & Ht' & Hle).
  rewrite Hc in Hc'. rewrite Ht in Ht'.
  injection Hc' as <-. injection Ht' as <-. lia.
Qed.

Lemma upsert_message_existing (new : Message.t) (d : db) :
  Message.key new ∈ keys d →
  keys (upsert_message new d) = keys d
  ∧ ∀ old, old ∈ gmail_messages d → Message.key old = Message.key new →
           merge_row old new ∈ gmail_messages (upsert_message new d).
Proof.
  intros Hin. unfold upsert_message, keys in *.
  rewrite bool_decide_eq_true_2 by done. cbn. split.
  - rewrite <- list_fmap_compose. apply list_fmap_ext.
    intros _ m _. cbn. by case_decide.
  - intros old Hold Hkey. apply list_elem_of_fmap.
    exists old. by rewrite decide_True.
Qed.

(** C2: [(user_id, message_id)] identifies a stored message: no history
    leaves two rows with the same key, an upsert of a key already stored
    rewrites that row in place and adds none, and so two sync passes over
    overlapping windows leave no duplicate. *)
Theorem upsert_never_duplicates (cap : nat) (history : list op)
    (new : Message.t) (d : db) :
  NoDup (keys (after cap history))
  ∧ NoDup (keys (upsert_message new (after cap history)))
  ∧ (Message.key new ∈ keys d →
     keys (upsert_message new d) = keys d
     ∧ length (gmail_messages (upsert_message new d))
       = length (gmail_messages d)
     ∧ ∀ old, old ∈ gmail_messages d → Message.key old = Message.key new →
              merge_row old new ∈ gmail_messages (upsert_message new d))
  ∧ (∀ u now now' mailbox mailbox' n n',
       NoDup (keys (after cap
                      (history ++ [OpSyncStart u now mailbox n;
                                   OpSyncStart u now' mailbox' n'])))).
Proof.
  split; [apply after_ok|]. split; [|split].
  - unfold upsert_message. case_bool_decide as Hin.
    + destruct (upsert_message_existing new _ Hin) as [Hkeys _].
      unfold upsert_message in Hkeys.
      rewrite bool_decide_eq_true_2 in Hkeys by done.
      rewrite Hkeys. apply after_ok.
    + unfold insert_message. destruct (_ && _) eqn:Hchecks; cbn.
      * unfold keys. cbn. rewrite fmap_app. apply NoDup_app.
        split; [apply after_ok|]. split; [|apply NoDup_singleton].
        intros k Hk ->%list_elem_of_singleton. by apply Hin.
      * apply after_ok.
  - intros Hin. destruct (upsert_message_existing new d Hin) as [Hkeys Hrow].
    split; [done|]. split; [|done].
    apply (f_equal length) in Hkeys. unfold keys in Hkeys.
    by rewrite !length_fmap in Hkeys.
  - intros. apply after_ok.
Qed.

(** C3: disconnecting deletes the user's connection and, by the cascade,
    every message of that user; the rows of other users stay, and no row is
    left without a connection. *)
Theorem disconnect_cascades (cap : nat) (history : list op) (u : string) :
  let d := after cap history in
  let d' := disconnect u d in
  gmail_connections d' !! u = None
  ∧ Forall (λ m, Message.user_id m ≠ u) (gmail_messages d')
  ∧ Forall (has_owner d') (gmail_messages d')
  ∧ gmail_messages d'
    = filter (λ m, Message.user_id m ≠ u) (gmail_messages d)
  ∧ ∀ u', u' ≠ u → gmail_connections d' !! u' = gmail_connections d !! u'.
Proof.
  cbv zeta. split; [apply lookup_delete_eq|]. split; [|split; [|split]].
  - apply Forall_forall. by intros m [? _]%list_elem_of_filter.
  - destruct (disconnect_ok u _ (after_ok cap history)) as (_ & Hbase & _).
    eapply Forall_impl; [exact Hbase|]. apply after_baseline_has_owner.
  - done.
  - intros u' Hne. by apply lookup_delete_ne.
Qed.


(* ===================================================================== *)
(** ** Further properties of the labels and of the inbox panel            *)
(* ===================================================================== *)

(** X1: the count shown by [formatRelativeTime] is never zero: minutes run
    from 1 to 59, hours from 1 to 23, days from 1. *)
Theorem formatRelativeTime_counts (Date_parse : str → option Z)
    (Date_now : Z) (iso : nullable str) :
  let shown := formatRelativeTime Date_parse Date_now iso in
  shown = lit "never" ∨ shown = lit "unknown" ∨ shown = lit "just now"
  ∨ (∃ m, 1 ≤ m ≤ 59 ∧ shown = show_int m ++ lit "m ago")
  ∨ (∃ h, 1 ≤ h ≤ 23 ∧ shown = show_int h ++ lit "h ago")
  ∨ (∃ d, 1 ≤ d ∧ shown = show_int d ++ lit "d ago").
Proof.
  cbv zeta. unfold formatRelativeTime.
  destruct (negb (truthy iso)); [by left|].
  destruct (Date_parse (nullish iso [])) as [time|]; [|by right; left].
  set (mins := (Date_now - time) / 60000).
  destruct (Z.ltb_spec mins 1); [by right; right; left|].
  destruct (Z.ltb_spec mins 60).
  { right; right; right; left. exists mins. split; [lia | done]. }
  assert (1 ≤ mins / 60) by (apply Z.div_le_lower_bound; lia).
  destruct (Z.ltb_spec (mins / 60) 24).
  { right; right; right; right; left. exists (mins / 60).
    split; [lia | done]. }
  right; right; right; right; right. exists (mins / 60 / 24).
  split; [apply Z.div_le_lower_bound; lia | done].
Qed.

Lemma formatRelativeTime_last (Date_parse : str → option Z) (Date_now : Z)
    (iso : nullable str) :
  truthy iso = true →
  ∃ c, last (formatRelativeTime Date_parse Date_now iso) = Some c
       ∧ c ≠ 114%N.
Proof.
  intros Htruthy. unfold formatRelativeTime. rewrite Htruthy. cbn [negb].
  destruct (Date_parse (nullish iso [])); [|by exists 110%N].
  cbv zeta. repeat case_match; try (by exists 119%N);
    rewrite last_app; by exists 111%N.
Qed.

(** X2: the Gmail card has a detail line exactly when a baseline or a
    last check is known, and that line never ends in "never". *)
Theorem gmailDetail_never_says_never (Date_parse : str → option Z)
    (Date_now : Z) (gs : GmailStatus) :
  (gmailDetail Date_parse Date_now gs = None
   ↔ truthy (baseline_at gs) = false ∧ truthy (last_checked_at gs) = false)
  ∧ ∀ prefix,
      gmailDetail Date_parse Date_now gs ≠ Some (prefix ++ lit "never").
Proof.
  unfold gmailDetail. split.
  - destruct (truthy (baseline_at gs)), (truthy (last_checked_at gs));
      split; try done; by intros [? ?].
  - intros prefix Heq.
    assert (Hlast : ∀ label t,
              truthy t = true →
              label ++ formatRelativeTime Date_parse Date_now t
              ≠ prefix ++ lit "never").
    { intros label t Ht Hsame. apply (f_equal last) in Hsame.
      destruct (formatRelativeTime_last Date_parse Date_now t Ht)
        as (c & Hc & Hne).
      rewrite !last_app, Hc in Hsame. vm_compute in Hsame. congruence. }
    destruct (truthy (baseline_at gs)) eqn:Hb.
    { apply (inj Some) in Heq. exact (Hlast _ _ Hb Heq). }
    destruct (truthy (last_checked_at gs)) eqn:Hl; [|done].
    apply (inj Some) in Heq. exact (Hlast _ _ Hl Heq).
Qed.







Lemma find_by_id_again (payload : list InboxMessage) (key : str)
    (m : InboxMessage) :
  List.find (λ item, bool_decide (id item = key)) payload = Some m →
  List.find (λ item, bool_decide (id item = id m)) payload = Some m.
Proof.
  induction payload as [|x payload IH]; cbn; [done|].
  case_bool_decide as Hx.
  - intros [= <-]. by rewrite bool_decide_eq_true_2.
  - intros Hfound. pose proof (find_some _ _ Hfound) as [_ Hm].
    apply bool_decide_eq_true in Hm.
    rewrite bool_decide_eq_false_2 by congruence. by apply IH.
Qed.

(** X4: loading the same page again leaves the selection where the first
    load put it. *)
Theorem selection_is_stable (payload : list InboxMessage) (v : InboxView) :
  selectAfterLoad payload (selectAfterLoad payload (selectedMessage v))
  = selectAfterLoad payload (selectedMessage v)
  ∧ completeLoad true (Loaded payload) (completeLoad true (Loaded payload) v)
    = completeLoad true (Loaded payload) v.
Proof.
  assert (Hstable : ∀ previous,
            selectAfterLoad payload (selectAfterLoad payload previous)
            = selectAfterLoad payload previous).
  { intros previous. destruct payload as [|first rest]; [done|].
    assert (Hfirst : selectAfterLoad (first :: rest) (Some first)
                     = Some first)
      by (cbn; by rewrite bool_decide_eq_true_2).
    unfold selectAfterLoad at 2 3.
    destruct previous as [prev|]; [|done].
    destruct (List.find _ (first :: rest)) as [kept|] eqn:Hfind; [|done].
    unfold selectAfterLoad. by rewrite (find_by_id_again _ _ _ Hfind). }
  split; [apply Hstable|]. cbn. by rewrite Hstable.
Qed.

(** X5: a load first clears the previous error and shows no empty-state
    text while it runs; once it completes the list is no longer loading,
    an error is recorded exactly when the load failed, and the empty state
    reads the error after a failure and "Nothing to show just yet." after
    an empty page; a completion that arrives after the effect was cleaned
    up changes nothing. *)
Theorem load_lifecycle (r : load_result) (v : InboxView) :
  let v' := completeLoad true r (startLoad v) in
  emptyStateText (startLoad v) = None
  ∧ messagesLoading v' = false
  ∧ (messagesError v' = None ↔ r ≠ LoadFailed)
  ∧ emptyStateText v'
    = match r with
      | LoadFailed => Some (lit "Unable to load inbox preview.")
      | Loaded [] => Some (lit "Nothing to show just yet.")
      | Loaded (_ :: _) => None
      end
  ∧ completeLoad false r (startLoad v) = startLoad v.
Proof.
  cbv zeta. destruct r as [[|first rest]|]; cbn; repeat split; done.
Qed.

(* ===================================================================== *)
(** ** Further properties of the connection and sync state                *)
(* ===================================================================== *)

Lemma step_fst (c : config) (e : event) :
  (step c e).1
  = (settle (Some (committed c))
       (match e with UserIs u => u | _ => user c end)
       (apply_setters (state c) (handle (user c) (state c) e).1)).1.
Proof. unfold step. by destruct (settle _ _ _). Qed.

Lemma step_snd (c : config) (e : event) :
  (step c e).2
  = ((λ r, (ByHandler, r)) <$> (handle (user c) (state c) e).2)
    ++ (settle (Some (committed c))
          (match e with UserIs u => u | _ => user c end)
          (apply_setters (state c) (handle (user c) (state c) e).1)).2.
Proof. unfold step. by destruct (settle _ _ _). Qed.

Lemma same_but_sync_refl (st : HomeState) : same_but_sync st st.
Proof. by repeat split. Qed.

Lemma same_but_sync_trans (st1 st2 st3 : HomeState) :
  same_but_sync st1 st2 → same_but_sync st2 st3 → same_but_sync st1 st3.
Proof.
  intros (? & ? & ? & ? & ? & ? & ? & ?) (? & ? & ? & ? & ? & ? & ? & ?).
  repeat split; try congruence. auto.
Qed.

Lemma apply_effect_setters (q : list setter) (st : HomeState) :
  Forall (λ s, effect_setter s = true) q →
  same_but_sync st (apply_setters st q).
Proof.
  intros Hq. revert st. induction Hq as [|s q Hs _ IH]; intros st.
  - apply same_but_sync_refl.
  - cbn. eapply same_but_sync_trans; [|apply IH].
    destruct st, s as [| | | | | | |[]| |]; try discriminate;
      by repeat split.
Qed.

Lemma commit_setters (prev : option deps) (u : nullable str)
    (st : HomeState) :
  Forall (λ s, effect_setter s = true) (commit prev u st).1.
Proof.
  unfold commit, statusEffect, resetEffect, autoSyncEffect, triggerSync,
    fetchGmailStatus, fetchHubSpotStatus, and_then, nothing.
  repeat case_match; cbn; repeat constructor.
Qed.

Lemma rerender_frame (n : nat) (prev : option deps) (u : nullable str)
    (st : HomeState) :
  same_but_sync st (rerender n prev u st).1.1.
Proof.
  revert prev st. induction n as [|n IH]; intros prev st; cbn.
  - apply apply_effect_setters, commit_setters.
  - specialize (IH (Some (deps_of u st))
                  (apply_setters st (commit prev u st).1)).
    destruct (rerender n _ _ _) as [[st' d] out]. cbn in *.
    eapply same_but_sync_trans; [|exact IH].
    apply apply_effect_setters, commit_setters.
Qed.

Lemma settle_frame (prev : option deps) (u : nullable str) (st : HomeState) :
  same_but_sync st (state (settle prev u st).1).
Proof.
  unfold settle. pose proof (rerender_frame 2 prev u st) as Hframe.
  by destruct (rerender 2 prev u st) as [[st' d] out].
Qed.

(** A step is its handler followed by effects that only touch the sync
    flags. *)
Lemma step_frame (c : config) (e : event) :
  same_but_sync (apply_setters (state c) (handle (user c) (state c) e).1)
    (state (step c e).1).
Proof. rewrite step_fst. apply settle_frame. Qed.

Lemma run_reachable (trace : list event) (c : config) :
  reachable c → reachable (run c trace).1.
Proof.
  revert c. induction trace as [|e trace IH]; intros c Hc; [done|].
  rewrite run_cons. cbn [fst]. apply IH. by constructor.
Qed.

Lemma same_but_sync_badges (st st' : HomeState) :
  same_but_sync st st' → badges_ok st → badges_ok st'.
Proof.
  intros (Hgs & Hg & _ & Hh & Hhs & Hhe & _) Hok. unfold badges_ok.
  by rewrite Hgs, Hg, Hh, Hhs, Hhe.
Qed.

Lemma handle_badges (u : nullable str) (st : HomeState) (e : event) :
  badges_ok st → badges_ok (apply_setters st (handle u st e).1).
Proof.
  unfold badges_ok. destruct st as [gs g gd h hs he si sy sm au].
  destruct e as [|[r|]|[r|]|? ? [?|]| |? []| | | | | | |]; cbn;
    unfold clickNext, clickSyncAgain, clickConnect, clickDisconnect,
      handleConnectGmail, handleConnectHubSpot, handleDisconnectGmail,
      triggerSync, fetchGmailStatus, nothing;
    cbn; repeat case_match; cbn;
    intros [Hgmail Hhubspot]; (split; [|intros Hh]);
    try done; try (by apply Hgmail); try (by apply Hhubspot);
    split; eauto.
Qed.

Lemma reachable_badges (c : config) : reachable c → badges_ok (state c).
Proof.
  induction 1 as [u|c e _ IH].
  - eapply same_but_sync_badges; [apply settle_frame|].
    split; [done|]. by intros [=].
  - eapply same_but_sync_badges; [apply step_frame|].
    by apply handle_badges.
Qed.

(** X6: whatever has happened since mount, a Gmail badge reading
    Connected comes with a status that says connected, and a HubSpot badge
    reading Connected with a connected status and no error; hence whenever
    "Next" is enabled so is "Sync again". *)
Theorem connected_badges_are_backed (u : nullable str) (trace : list event) :
  let st := state (run (mount u).1 trace).1 in
  badges_ok st
  ∧ (nextDisabled st = false → syncAgainDisabled st = false).
Proof.
  cbv zeta.
  pose proof (reachable_badges _ (run_reachable trace _ (reachable_mount u)))
    as Hok.
  split; [exact Hok|].
  destruct Hok as [Hgmail _].
  unfold nextDisabled, syncAgainDisabled, canProceed.
  destruct (isSyncing _); [by rewrite orb_true_r|].
  destruct (baselineReady _); [|by rewrite andb_false_r].
  case_bool_decide as Hg; [|done].
  by rewrite (Hgmail Hg).
Qed.

Lemma truthy_nullish (u : nullable str) :
  truthy u = true → nullish u [] ≠ [].
Proof. by destruct u as [| |[|c s]]. Qed.

Lemma handle_requests_ok (u : nullable str) (st : HomeState) (e : event) :
  Forall request_ok (handle u st e).2.
Proof.
  destruct e as [| | |u' ? [?|]| |u' []| | | | | | |]; cbn;
    unfold clickNext, clickSyncAgain, clickConnect, clickDisconnect,
      handleConnectGmail, handleConnectHubSpot, handleDisconnectGmail,
      gmailStatusSettled, hubspotStatusSettled, triggerSync,
      fetchGmailStatus, nothing;
    repeat case_match; cbn; repeat constructor;
    apply truthy_nullish; by destruct (truthy _).
Qed.

Lemma commit_requests_ok (prev : option deps) (u : nullable str)
    (st : HomeState) :
  Forall request_ok (commit prev u st).2.
Proof.
  unfold commit, statusEffect, resetEffect, autoSyncEffect, triggerSync,
    fetchGmailStatus, fetchHubSpotStatus, and_then, nothing.
  destruct (truthy u) eqn:Hu; repeat case_match; cbn; repeat constructor;
    by apply truthy_nullish.
Qed.

Lemma rerender_requests_ok (n : nat) (prev : option deps) (u : nullable str)
    (st : HomeState) :
  Forall request_ok (rerender n prev u st).2.
Proof.
  revert prev st. induction n as [|n IH]; intros prev st; cbn.
  - apply commit_requests_ok.
  - specialize (IH (Some (deps_of u st))
                  (apply_setters st (commit prev u st).1)).
    destruct (rerender n _ _ _) as [[st' d] out]. cbn in *.
    apply Forall_app. split; [apply commit_requests_ok | exact IH].
Qed.

Lemma settle_requests_ok (prev : option deps) (u : nullable str)
    (st : HomeState) :
  Forall (λ x, request_ok x.2) (settle prev u st).2.
Proof.
  unfold settle. pose proof (rerender_requests_ok 2 prev u st) as Hok.
  destruct (rerender 2 prev u st) as [[st' d] out]. cbn in *.
  by apply Forall_fmap.
Qed.

(** X7: no request ever leaves the component without a user id, whether
    started by a click, by the end of an earlier request or by an effect,
    and every sync request asks for 200 messages. *)
Theorem requests_name_a_user (c : config) (e : event) (u : nullable str) :
  Forall (λ x, request_ok x.2) (step c e).2
  ∧ Forall (λ x, request_ok x.2) (mount u).2.
Proof.
  split; [|apply settle_requests_ok].
  rewrite step_snd. apply Forall_app. split; [|apply settle_requests_ok].
  apply Forall_fmap, handle_requests_ok.
Qed.

Lemma click_sets_isSyncing (u : nullable str) (st : HomeState) (e : event) :
  e = ClickNext ∨ e = ClickSyncAgain →
  (handle u st e).2 = []
  ∨ isSyncing (apply_setters st (handle u st e).1) = true.
Proof.
  intros [-> | ->]; cbn; unfold clickNext, clickSyncAgain, triggerSync;
    repeat case_match; cbn; auto; right; by destruct st.
Qed.

Lemma syncing_disables_clicks (u : nullable str) (st : HomeState) :
  isSyncing st = true →
  nextDisabled st = true ∧ syncAgainDisabled st = true
  ∧ (handle u st ClickNext).2 = [] ∧ (handle u st ClickSyncAgain).2 = [].
Proof.
  intros Hsync. cbn. unfold clickNext, clickSyncAgain.
  unfold nextDisabled, syncAgainDisabled. rewrite Hsync, !orb_true_r. done.
Qed.

Lemma handle_keeps_isSyncing (u : nullable str) (st : HomeState) (e : event) :
  ends_sync e = false → isSyncing st = true →
  isSyncing (apply_setters st (handle u st e).1) = true.
Proof.
  destruct st as [gs g gd h hs he si sy sm au]. cbn. intros He ->.
  destruct e as [|[r|]|[r|]|? [] [?|]| |? []| | | | | | |];
    try discriminate; cbn;
    unfold clickNext, clickSyncAgain, clickConnect, clickDisconnect,
      handleConnectGmail, handleConnectHubSpot, handleDisconnectGmail,
      triggerSync, fetchGmailStatus, nothing;
    cbn; repeat case_match; done.
Qed.

Lemma click_starts_once (c : config) (e : event) :
  e = ClickNext ∨ e = ClickSyncAgain →
  (handle (user c) (state c) e).2 = []
  ∨ (isSyncing (state (step c e).1) = true
     ∧ nextDisabled (state (step c e).1) = true
     ∧ syncAgainDisabled (state (step c e).1) = true
     ∧ (handle (user (step c e).1) (state (step c e).1) ClickNext).2 = []
     ∧ (handle (user (step c e).1) (state (step c e).1) ClickSyncAgain).2
       = []).
Proof.
  intros He.
  destruct (click_sets_isSyncing (user c) (state c) e He) as [?|Hsync];
    [by left|right].
  destruct (step_frame c e) as (_ & _ & _ & _ & _ & _ & _ & Hkeep).
  split; [by apply Hkeep|]. by apply syncing_disables_clicks, Hkeep.
Qed.

(** X8: a click that starts a sync leaves both sync buttons disabled, so a
    second click starts nothing; and the buttons stay disabled until the
    sync fails or the status refresh after its success has returned. *)
Theorem manual_sync_not_repeated (c : config) :
  Forall
    (λ e, (handle (user c) (state c) e).2 = []
          ∨ (isSyncing (state (step c e).1) = true
             ∧ nextDisabled (state (step c e).1) = true
             ∧ syncAgainDisabled (state (step c e).1) = true
             ∧ (handle (user (step c e).1) (state (step c e).1)
                  ClickNext).2 = []
             ∧ (handle (user (step c e).1) (state (step c e).1)
                  ClickSyncAgain).2 = []))
    [ClickNext; ClickSyncAgain]
  ∧ ∀ e, isSyncing (state c) = true → ends_sync e = false →
         isSyncing (state (step c e).1) = true
         ∧ nextDisabled (state (step c e).1) = true
         ∧ syncAgainDisabled (state (step c e).1) = true.
Proof.
  split.
  - apply Forall_cons. split; [apply click_starts_once; by left|].
    apply Forall_cons. split; [apply click_starts_once; by right|].
    apply Forall_nil_2.
  - intros e Hsync He.
    destruct (step_frame c e) as (_ & _ & _ & _ & _ & _ & _ & Hkeep).
    assert (Hstill : isSyncing (state (step c e).1) = true)
      by (by apply Hkeep, handle_keeps_isSyncing).
    split; [done|].
    destruct (syncing_disables_clicks (user c) _ Hstill) as (? & ? & _).
    done.
Qed.

(** X9: the Disconnect button cannot be used twice in a row: a click that
    sends the request sets [gmailDisconnecting], which disables it.  A
    refused disconnect clears the flag and leaves the badge as it was; the
    end of an accepted one clears the flag and sets the badge to
    disconnected, whatever the status refresh before it reported. *)
Theorem disconnect_lifecycle (c : config) (u : nullable str) :
  ((handle (user c) (state c) ClickDisconnectGmail).2 = []
   ∨ (gmailDisconnecting (state (step c ClickDisconnectGmail).1) = true
      ∧ (handle (user (step c ClickDisconnectGmail).1)
           (state (step c ClickDisconnectGmail).1) ClickDisconnectGmail).2
        = []))
  ∧ (gmailDisconnecting (state (step c (DisconnectResponded u false)).1)
     = false
     ∧ gmailState (state (step c (DisconnectResponded u false)).1)
       = gmailState (state c)
     ∧ gmailStatus (state (step c (DisconnectResponded u false)).1)
       = gmailStatus (state c))
  ∧ (gmailDisconnecting (state (step c DisconnectFinished).1) = false
     ∧ gmailState (state (step c DisconnectFinished).1) = Disconnected).
Proof.
  split; [|split].
  - destruct (step_frame c ClickDisconnectGmail)
      as (_ & _ & Hflag & _).
    revert Hflag. cbn [handle].
    unfold clickDisconnect, handleDisconnectGmail.
    destruct (_ && _ && _); [|by left].
    destruct (negb (truthy (user c))); [by left|].
    intros Hflag. right.
    assert (Hset : gmailDisconnecting (state (step c ClickDisconnectGmail).1)
                   = true) by (rewrite Hflag; by destruct (state c)).
    split; [exact Hset|].
    by rewrite Hset, andb_false_r.
  - destruct (step_frame c (DisconnectResponded u false))
      as (Hgs & Hg & Hflag & _).
    rewrite Hgs, Hg, Hflag. by destruct (state c).
  - destruct (step_frame c DisconnectFinished) as (_ & Hg & Hflag & _).
    rewrite Hg, Hflag. by destruct (state c).
Qed.




Lemma rerender_at_rest (n : nat) (u : nullable str) (st : HomeState) :
  rerender n (Some (deps_of u st)) u st = (st, deps_of u st, []).
Proof.
  assert (Hnothing : commit (Some (deps_of u st)) u st = nothing).
  { unfold commit. cbn [dep_userId deps_of].
    rewrite !bool_decide_eq_false_2; [done | by intros [] | by intros []]. }
  induction n as [|n IH]; cbn [rerender]; rewrite Hnothing;
    unfold nothing, apply_setters; cbn [fst snd foldl]; [done|].
  fold (apply_setters st []). by rewrite IH.
Qed.

(** X13: the effects cannot keep each other running: after mount and
    after every event the component is at rest within three commits, that
    is, any number of further renders changes no state and starts no
    request. *)
Theorem effects_come_to_rest (c : config) (e : event) (u : nullable str)
    (n : nat) :
  let c' := (step c e).1 in
  let c0 := (mount u).1 in
  rerender n (Some (committed c')) (user c') (state c')
  = (state c', committed c', [])
  ∧ rerender n (Some (committed c0)) (user c0) (state c0)
    = (state c0, committed c0, []).
Proof.
  cbv zeta. rewrite step_fst. unfold mount. split.
  - destruct (settle_spec (Some (committed c))
                (match e with UserIs u' => u' | _ => user c end)
                (apply_setters (state c) (handle (user c) (state c) e).1))
      as (Hu & Hd & _).
    rewrite Hd, Hu. apply rerender_at_rest.
  - destruct (settle_spec None u initialState) as (Hu & Hd & _).
    rewrite Hd, Hu. apply rerender_at_rest.
Qed.

Lemma effect_status_by_effect (out : list request) :
  effect_status_requests ((λ r, (ByEffect, r)) <$> out)
  = filter (λ r, is_status_request r = true) out.
Proof.
  unfold effect_status_requests. induction out as [|r out IH]; [done|].
  assert (Hsame : is_effect_status (ByEffect, r) = is_status_request r)
    by done.
  rewrite fmap_cons. destruct (is_status_request r) eqn:Hr.
  - rewrite !filter_cons_True by done. cbn. by rewrite <- IH.
  - rewrite !filter_cons_False by congruence. exact IH.
Qed.

Lemma effect_status_by_handler (out : list request) :
  effect_status_requests ((λ r, (ByHandler, r)) <$> out) = [].
Proof.
  unfold effect_status_requests. induction out as [|r out IH]; [done|].
  rewrite fmap_cons, filter_cons_False; [exact IH | cbn; discriminate].
Qed.

Lemma effect_status_app (a b : list (origin * request)) :
  effect_status_requests (a ++ b)
  = effect_status_requests a ++ effect_status_requests b.
Proof. unfold effect_status_requests. by rewrite filter_app, fmap_app. Qed.

(** The status requests of one commit: both, when the user has changed to
    a signed-in one. *)
Lemma commit_status (prev : option deps) (u : nullable str) (st : HomeState) :
  filter (λ r, is_status_request r = true) (commit prev u st).2
  = if match prev with
       | None => true
       | Some d => bool_decide (dep_userId d ≠ u)
       end && truthy u
    then [GetGmailStatus (nullish u []); GetHubSpotStatus (nullish u [])]
    else [].
Proof.
  unfold commit.
  generalize (match prev with
              | None => true
              | Some d => bool_decide (dep_userId d ≠ u)
              end) as user_changed.
  generalize (match prev with
              | None => true
              | Some d => bool_decide (d ≠ deps_of u st)
              end) as auto_changed.
  intros auto_changed user_changed.
  unfold statusEffect, resetEffect, autoSyncEffect, triggerSync,
    fetchGmailStatus, fetchHubSpotStatus, and_then, nothing.
  destruct user_changed, auto_changed, (truthy u); cbn [negb andb];
    repeat case_match; reflexivity.
Qed.

Lemma settle_status (prev : option deps) (u : nullable str) (st : HomeState) :
  effect_status_requests (settle prev u st).2
  = if match prev with
       | None => true
       | Some d => bool_decide (dep_userId d ≠ u)
       end && truthy u
    then [GetGmailStatus (nullish u []); GetHubSpotStatus (nullish u [])]
    else [].
Proof.
  unfold settle, rerender. cbn [fst snd].
  rewrite effect_status_by_effect, !filter_app, !commit_status.
  cbn [dep_userId deps_of].
  rewrite !bool_decide_eq_false_2 by (by intros []).
  cbn [andb]. by rewrite !app_nil_r.
Qed.

(** X15: the two status requests are sent by an effect at mount, and again
    exactly when the user identity changes, each time for the new user if
    there is one; no other event makes an effect ask for the status. *)
Theorem status_fetched_on_identity_change (u : nullable str)
    (trace : list event) (e : event) :
  let c := (run (mount u).1 trace).1 in
  effect_status_requests (mount u).2
  = (if truthy u
     then [GetGmailStatus (nullish u []); GetHubSpotStatus (nullish u [])]
     else [])
  ∧ effect_status_requests (step c e).2
    = match e with
      | UserIs u' =>
          if bool_decide (u' ≠ user c) && truthy u'
          then [GetGmailStatus (nullish u' []);
                GetHubSpotStatus (nullish u' [])]
          else []
      | _ => []
      end.
Proof.
  cbv zeta. split; [apply settle_status|].
  set (c := (run (mount u).1 trace).1).
  assert (Hrest : at_rest c)
    by apply reachable_at_rest, run_reachable, reachable_mount.
  destruct Hrest as [Hcommitted _].
  rewrite step_snd, effect_status_app, effect_status_by_handler, settle_status.
  rewrite Hcommitted. cbn [dep_userId deps_of app].
  destruct e; try (by rewrite bool_decide_eq_false_2 by (by intros [])).
  destruct (decide (userId = user c)) as [Hsame|Hne].
  - by rewrite !bool_decide_eq_false_2 by (by intros []).
  - by rewrite !bool_decide_eq_true_2 by congruence.
Qed.

(* ===================================================================== *)
(** ** Properties of the CMS test button                                  *)
(* ===================================================================== *)

(** X11: when the server refuses the CMS test, the user is shown one
    destructive toast titled "CMS test failed" whose description is the
    body of the response, or the fallback text if the body is empty, and
    the button is released. *)
Theorem cms_failure_is_shown (fetch : Request → settled)
    (TypeError_message : str) (userId : nullable str) (response : Response) :
  truthy userId = true →
  fetch (cmsTestRequest (nullish userId [])) = Resolved response →
  ok response = false →
  handleCmsTest fetch TypeError_message userId false
  = {| cms_requests := [cmsTestRequest (nullish userId [])];
       cms_toasts :=
         [{| toast_title := lit "CMS test failed";
             toast_description :=
               match text response with
               | [] => lit "Unable to trigger CMS blog post test."
               | _ :: _ => text response
               end;
             toast_variant := Some (lit "destructive") |}];
       cms_running_meanwhile := true;
       cms_running_after := false |}.
Proof.
  intros Huser Hfetch Hok. unfold handleCmsTest, triggerCmsBlogPostTest.
  rewrite Huser, Hfetch, Hok. cbn [negb orb].
  unfold cmsFailureToast, new_Error, or_str. cbn [message].
  by destruct (text response).
Qed.

Lemma cms_failure_is_shown_witness :
  truthy (Val (lit "user_1")) = true
  ∧ ok bad_gateway_response = false
  ∧ cms_toasts
      (handleCmsTest (λ _, Resolved bad_gateway_response) []
         (Val (lit "user_1")) false)
    = [{| toast_title := lit "CMS test failed";
          toast_description := lit "upstream unavailable";
          toast_variant := Some (lit "destructive") |}].
Proof.
  split; [reflexivity|]. split; [reflexivity|].
  rewrite (cms_failure_is_shown (λ _, Resolved bad_gateway_response) []
             (Val (lit "user_1")) bad_gateway_response
             eq_refl eq_refl eq_refl).
  reflexivity.
Defined.

(** X12: a CMS test that is started shows exactly one toast and releases
    the button, whatever comes back: a network failure, a refusal, a body
    that is not JSON, or any JSON value; without a user, or while a test is
    running, or while HubSpot is not connected, nothing is sent and nothing
    is shown. *)
Theorem cms_test_always_reports (fetch : Request → settled)
    (TypeError_message : str) (userId : nullable str)
    (hubspot : ConnectionState) (cmsTestRunning : bool) :
  let run := handleCmsTest fetch TypeError_message userId cmsTestRunning in
  let click :=
    clickCmsTest fetch TypeError_message userId hubspot cmsTestRunning in
  (run = {| cms_requests := []; cms_toasts := [];
            cms_running_meanwhile := cmsTestRunning;
            cms_running_after := cmsTestRunning |}
   ∧ (truthy userId = false ∨ cmsTestRunning = true)
   ∨ ∃ shown,
       run = {| cms_requests := [cmsTestRequest (nullish userId [])];
                cms_toasts := [shown];
                cms_running_meanwhile := true;
                cms_running_after := false |}
       ∧ truthy userId = true ∧ cmsTestRunning = false
       ∧ (toast_title shown = lit "CMS sample payload sent"
          ∧ toast_variant shown = None
          ∨ toast_title shown = lit "CMS test failed"
            ∧ toast_variant shown = Some (lit "destructive")))
  ∧ (hubspot ≠ Connected → cms_requests click = [] ∧ cms_toasts click = [])
  ∧ (hubspot = Connected → click = run).
Proof.
  cbv zeta. split; [|split].
  - unfold handleCmsTest.
    destruct (truthy userId), cmsTestRunning; cbn [negb orb];
      try (left; split; [done | auto]).
    right. eexists. split; [reflexivity|]. split; [done|]. split; [done|].
    destruct (triggerCmsBlogPostTest fetch (nullish userId []))
      as [result|e]; [|by right].
    unfold cmsSuccessToast.
    destruct (get_property result (lit "hubspot_response"));
      [by left | by right].
  - intros Hne. unfold clickCmsTest.
    rewrite (bool_decide_eq_false_2 _ Hne). cbn [negb].
    by rewrite orb_true_r.
  - intros ->. unfold clickCmsTest, handleCmsTest.
    rewrite bool_decide_eq_true_2 by done. cbn [negb].
    rewrite orb_false_r. destruct cmsTestRunning; [|done].
    by rewrite orb_true_r.
Qed.

(** X16: when the server accepts the CMS test and answers with JSON, the
    toast reports success unless the body is the JSON value null, which is
    reported as a failure with the engine's TypeError message; an id found
    under [hubspot_response.id] as a non-empty string is quoted in the
    description as it is. *)
Theorem cms_success_is_shown (fetch : Request → settled)
    (TypeError_message : str) (userId : nullable str) (response : Response)
    (result : Json) :
  truthy userId = true →
  fetch (cmsTestRequest (nullish userId [])) = Resolved response →
  ok response = true →
  json response = Some result →
  ∃ shown,
    cms_toasts (handleCmsTest fetch TypeError_message userId false) = [shown]
    ∧ (result = JNull →
       shown = {| toast_title := lit "CMS test failed";
                  toast_description := TypeError_message;
                  toast_variant := Some (lit "destructive") |})
    ∧ (result ≠ JNull →
       toast_title shown = lit "CMS sample payload sent"
       ∧ toast_variant shown = None)
    ∧ (∀ fields inner id,
         result = JObj fields →
         own_property (lit "hubspot_response") fields = Some (JObj inner) →
         own_property (lit "id") inner = Some (JStr id) →
         id ≠ [] →
         toast_description shown
         = lit "HubSpot created blog post " ++ id ++ lit ".").
Proof.
  intros Huser Hfetch Hok Hjson.
  unfold handleCmsTest, triggerCmsBlogPostTest.
  rewrite Huser, Hfetch, Hok, Hjson. cbn [negb orb cms_toasts].
  eexists. split; [reflexivity|]. unfold cmsSuccessToast.
  split; [by intros ->|]. split.
  - intros Hnot. by destruct result.
  - intros fields inner id -> Hinner Hid Hne.
    cbn [get_property]. rewrite Hinner.
    cbn [toast_description optional_property get_property default].
    rewrite Hid. cbn [truthy_value String_value String_json].
    by destruct id.
Qed.

Lemma cms_success_is_shown_witness :
  let body :=
    JObj [(lit "status", JStr (lit "ok"));
          (lit "hubspot_response", JObj [(lit "id", JStr (lit "4242"))])] in
  let response := {| ok := true; text := []; json := Some body |} in
  truthy (Val (lit "user_1")) = true
  ∧ ok response = true
  ∧ ∃ shown,
      cms_toasts
        (handleCmsTest (λ _, Resolved response) [] (Val (lit "user_1")) false)
      = [shown]
      ∧ toast_description shown = lit "HubSpot created blog post 4242.".
Proof.
  cbv zeta. split; [reflexivity|]. split; [reflexivity|].
  destruct (cms_success_is_shown
              (λ _, Resolved
                      {| ok := true; text := [];
                         json :=
                           Some (JObj [(lit "status", JStr (lit "ok"));
                                       (lit "hubspot_response",
                                        JObj [(lit "id",
                                               JStr (lit "4242"))])]) |})
              [] (Val (lit "user_1")) _ _ eq_refl eq_refl eq_refl eq_refl)
    as (shown & Hshown & _ & _ & Hid).
  exists shown. split; [exact Hshown|].
  rewrite (Hid _ _ (lit "4242") eq_refl eq_refl eq_refl); [reflexivity|].
  by vm_compute.
Defined.

(* ===================================================================== *)
(** ** Properties of the schema's constraints                             *)
(* ===================================================================== *)

Lemma insert_message_Some (m : Message.t) (d d' : db) :
  insert_message m d = Some d' →
  is_Some (gmail_connections d !! Message.user_id m)
  ∧ (Message.key m ∉ keys d)
  ∧ gmail_connections d' = gmail_connections d
  ∧ next_id d' = N.succ (next_id d)
  ∧ ∃ row, gmail_messages d' = gmail_messages d ++ [row]
           ∧ Message.key row = Message.key m
           ∧ Message.id row = next_id d.
Proof.
  unfold insert_message. destruct (_ && _) eqn:Hchecks; [|done].
  apply andb_true_iff in Hchecks
    as [Hfk%bool_decide_eq_true Hfresh%bool_decide_eq_true].
  intros [= <-]. cbn. repeat split; try done. by eexists.
Qed.


Lemma run_statement_ok (d : db) (s : statement) :
  schema_ok d → schema_ok (run_statement d s).
Proof.
  intros (Hkeys & Hids & Hbound & Hfk).
  destruct s as [u c|m|u]; cbn.
  - unfold insert_connection.
    destruct (gmail_connections d !! u) eqn:Hu; [done|]. cbn.
    split; [done|]. split; [done|]. split; [done|]. cbn.
    eapply Forall_impl; [exact Hfk|].
    intros m [c' Hc']. unfold has_owner. cbn.
    destruct (decide (u = Message.user_id m)) as [->|Hne].
    + by rewrite lookup_insert_eq.
    + rewrite lookup_insert_ne by done. by eexists.
  - destruct (insert_message m d) as [d'|] eqn:Hins; [|done]. cbn.
    destruct (insert_message_Some _ _ _ Hins)
      as (Howner & Hfresh & Hconns & Hnext & row & Hrows & Hkey & Hid).
    unfold schema_ok, keys, has_owner in *.
    rewrite Hrows, Hconns, Hnext, !fmap_app. cbn [fmap list_fmap].
    rewrite Hkey, Hid. split; [|split; [|split]].
    + apply NoDup_app. split; [done|]. split; [|apply NoDup_singleton].
      intros k Hk ->%list_elem_of_singleton. by apply Hfresh.
    + apply NoDup_app. split; [done|]. split; [|apply NoDup_singleton].
      intros i Hi ->%list_elem_of_singleton.
      apply list_elem_of_fmap in Hi as (old & Hold & Hin).
      rewrite Forall_forall in Hbound. specialize (Hbound old Hin). lia.
    + apply Forall_app. split.
      * eapply Forall_impl; [exact Hbound|]. intros old Hold. cbn in *. lia.
      * apply Forall_singleton. rewrite Hid. lia.
    + apply Forall_app. split; [done|]. apply Forall_singleton.
      injection Hkey as Hu _. by rewrite Hu.
  - unfold schema_ok, keys, has_owner in *. cbn. split; [|split; [|split]].
    + apply (sublist_NoDup _ (Message.key <$> gmail_messages d)); [done|].
      apply fmap_sublist, sublist_filter.
    + apply (sublist_NoDup _ (Message.id <$> gmail_messages d)); [done|].
      apply fmap_sublist, sublist_filter.
    + rewrite Forall_forall in *. intros m [_ Hm]%list_elem_of_filter.
      by apply Hbound.
    + rewrite Forall_forall in *. intros m [Hne Hm]%list_elem_of_filter.
      rewrite lookup_delete_ne by done. by apply Hfk.
Qed.

(** X14: whatever inserts and deletes are run against the two tables, the
    statements that violate a constraint being rejected, no two messages
    share [(user_id, message_id)] or [id], and every message belongs to an
    existing connection. *)
Theorem schema_integrity (script : list statement) :
  let d := run_statements script in
  NoDup (keys d)
  ∧ NoDup (Message.id <$> gmail_messages d)
  ∧ Forall (has_owner d) (gmail_messages d).
Proof.
  cbv zeta.
  assert (Hok : schema_ok (run_statements script)).
  { unfold run_statements.
    induction script as [|s script IH] using rev_ind.
    - split; [apply NoDup_nil_2|]. split; [apply NoDup_nil_2|].
      by split; apply Forall_nil.
    - rewrite foldl_snoc. by apply run_statement_ok. }
  destruct Hok as (? & ? & _ & ?). done.
Qed.

